(* Figma MCP selection bridge: a shallow embedding of the plugin's value
   normalizers, node serializer, asset collector and composite exporter
   (packages/figma-plugin/code.js) and of the relay's selection store and
   HTTP handlers (packages/mcp-server/src), with the properties the
   specification states about them. *)

From Stdlib Require Import List String Ascii Bool Arith Lia ZArith QArith Qround.
Import ListNotations.
Open Scope string_scope.
Set Warnings "-register-all".


(* ------------------------------------------------------------------------ *)
(** * JavaScript values *)

(** The loosely typed values the plugin reads from the Figma node graph and
    the relay receives as parsed JSON.  Numbers are modelled as rationals
    (no NaN or infinities); [JSymbol] covers [figma.mixed], a Symbol. *)
Inductive jsval : Type :=
| JUndefined
| JNull
| JSymbol (tag : nat)
| JNum (q : Q)
| JStr (s : string)
| JBool (b : bool)
| JArr (xs : list jsval)
| JObj (fields : list (string * jsval)).

(** [figma.mixed]. *)
Definition mixed : jsval := JSymbol 0.

(** [typeof v]. *)
Definition typeof (v : jsval) : string :=
  match v with
  | JUndefined => "undefined"
  | JNull => "object"
  | JSymbol _ => "symbol"
  | JNum _ => "number"
  | JStr _ => "string"
  | JBool _ => "boolean"
  | JArr _ => "object"
  | JObj _ => "object"
  end.

(** [Array.isArray v]. *)
Definition isArray (v : jsval) : bool :=
  match v with JArr _ => true | _ => false end.

Definition is_undefined (v : jsval) : bool :=
  match v with JUndefined => true | _ => false end.

Definition is_null (v : jsval) : bool :=
  match v with JNull => true | _ => false end.

(** JavaScript truthiness ([if (v)], [!v], [a && b]). *)
Definition truthy (v : jsval) : bool :=
  match v with
  | JUndefined | JNull => false
  | JBool b => b
  | JNum q => negb (Qeq_bool q 0)
  | JStr s => negb (String.eqb s "")
  | JSymbol _ | JArr _ | JObj _ => true
  end.

(** Own-property lookup in a field list (first binding wins). *)
Fixpoint assoc {A} (k : string) (m : list (string * A)) : option A :=
  match m with
  | [] => None
  | (k', v) :: m' => if String.eqb k k' then Some v else assoc k m'
  end.

(** Property read [v.k] on a value that is not null or undefined:
    objects answer their own fields, every other value answers undefined
    for the property names the plugin reads. *)
Definition jget (v : jsval) (k : string) : jsval :=
  match v with
  | JObj fs => match assoc k fs with Some x => x | None => JUndefined end
  | _ => JUndefined
  end.

(** Strict equality [a === b].  Arrays and objects compare by reference;
    values parsed from different JSON bodies are distinct references. *)
Definition strict_eq (a b : jsval) : bool :=
  match a, b with
  | JUndefined, JUndefined => true
  | JNull, JNull => true
  | JSymbol x, JSymbol y => Nat.eqb x y
  | JNum x, JNum y => Qeq_bool x y
  | JStr x, JStr y => String.eqb x y
  | JBool x, JBool y => Bool.eqb x y
  | _, _ => false
  end.

(* ------------------------------------------------------------------------ *)
(** * Value normalizers (code.js, safe / safeNum / safeStr / safeBool / safeArr) *)

(** An omitted optional argument is [JUndefined]. *)
Definition safe (val fallback : jsval) : jsval :=
  if is_null val || is_undefined val then
    (if negb (is_undefined fallback) then fallback else JNull)
  else if String.eqb (typeof val) "symbol" then
    (if negb (is_undefined fallback) then fallback else JNull)
  else val.

Definition safeNum (val fallback : jsval) : jsval :=
  let v := safe val JUndefined in
  if String.eqb (typeof v) "number" then v
  else if negb (is_undefined fallback) then fallback else JNum 0.

Definition safeStr (val fallback : jsval) : jsval :=
  let v := safe val JUndefined in
  if String.eqb (typeof v) "string" then v
  else if negb (is_undefined fallback) then fallback else JStr "".

Definition safeBool (val fallback : jsval) : jsval :=
  let v := safe val JUndefined in
  if String.eqb (typeof v) "boolean" then v
  else if negb (is_undefined fallback) then fallback else JBool false.

Definition safeArr (val : jsval) : jsval :=
  let v := safe val JUndefined in
  if isArray v then v else JArr [].

(* ------------------------------------------------------------------------ *)
(** * Image format detection (code.js, detectImageFormat) *)

(** [bytes[i] === b]; an index past the end reads undefined. *)
Definition byte_is (bytes : list Z) (i : nat) (b : Z) : bool :=
  match nth_error bytes i with Some x => Z.eqb x b | None => false end.

Definition detectImageFormat (bytes : list Z) : string :=
  if Nat.ltb (List.length bytes) 12 then "png"
  else if byte_is bytes 0 0x89 && byte_is bytes 1 0x50 && byte_is bytes 2 0x4E
          && byte_is bytes 3 0x47 then "png"
  else if byte_is bytes 0 0xFF && byte_is bytes 1 0xD8 then "jpg"
  else if byte_is bytes 0 0x47 && byte_is bytes 1 0x49 && byte_is bytes 2 0x46
  then "gif"
  else if byte_is bytes 8 0x57 && byte_is bytes 9 0x45 && byte_is bytes 10 0x42
          && byte_is bytes 11 0x50 then "webp"
  else "png".

Example detect_jpeg_12 :
  detectImageFormat [0xFF; 0xD8; 0xFF; 0xE0; 0; 0x10; 0x4A; 0x46; 0x49; 0x46; 0; 1]%Z = "jpg".
Proof. reflexivity. Qed.

Example detect_jpeg_short : detectImageFormat [0xFF; 0xD8]%Z = "png".
Proof. reflexivity. Qed.

(* ------------------------------------------------------------------------ *)
(** * Figma nodes *)

(** A node of the Figma scene graph: its properties and, when
    [node.children] is present, its children.  [FRemoved] is a node that
    has been deleted from the document: reading any property of it throws. *)
Inductive fnode : Type :=
| FNode (props : list (string * jsval)) (children : option (list fnode))
| FRemoved.

(** [node.k] on a live node. *)
Definition prop (props : list (string * jsval)) (k : string) : jsval :=
  match assoc k props with Some v => v | None => JUndefined end.

Definition as_str (v : jsval) : string :=
  match v with JStr s => s | _ => "" end.

Definition as_num (v : jsval) : Q :=
  match v with JNum q => q | _ => 0 end.

Definition list_of (v : jsval) : list jsval :=
  match v with JArr xs => xs | _ => [] end.

Definition Qltb (a b : Q) : bool := negb (Qle_bool b a).


(* ------------------------------------------------------------------------ *)
(** * Paints and effects (code.js, toColor, extractPaint and extractEffect) *)

Definition is_symbol (v : jsval) : bool :=
  match v with JSymbol _ => true | _ => false end.

(** [toColor(c)]. *)
Definition toColor (c : jsval) : jsval :=
  if negb (truthy c) || is_symbol c then
    JObj [("r", JNum 0); ("g", JNum 0); ("b", JNum 0); ("a", JNum 1)]
  else
    JObj [("r", safeNum (jget c "r") (JNum 0)); ("g", safeNum (jget c "g") (JNum 0));
          ("b", safeNum (jget c "b") (JNum 0)); ("a", safeNum (jget c "a") (JNum 1))].

Definition is_gradient (t : jsval) : bool :=
  strict_eq t (JStr "GRADIENT_LINEAR") || strict_eq t (JStr "GRADIENT_RADIAL")
  || strict_eq t (JStr "GRADIENT_ANGULAR") || strict_eq t (JStr "GRADIENT_DIAMOND").

(** One gradient stop; reading [s.color] on a null or undefined stop
    throws ([None]). *)
Definition extract_stop (s : jsval) : option jsval :=
  if is_null s || is_undefined s then None
  else Some (JObj [("color", toColor (jget s "color"));
                   ("position", safeNum (jget s "position") (JNum 0))]).

(** [array.map(f)] for an [f] that may throw. *)
Fixpoint map_throw (f : jsval -> option jsval) (xs : list jsval) : option (list jsval) :=
  match xs with
  | [] => Some []
  | x :: xs' =>
    match f x with
    | None => None
    | Some y => match map_throw f xs' with Some ys => Some (y :: ys) | None => None end
    end
  end.

(** [extractPaint(p)]: [Some JNull] is the returned [null], [None] a throw. *)
Definition extractPaint (p : jsval) : option jsval :=
  if negb (truthy p) || is_symbol p then Some JNull else
  let base := [("type", safeStr (jget p "type") (JStr "SOLID"));
               ("visible", safeBool (jget p "visible") (JBool true));
               ("opacity", safeNum (jget p "opacity") (JNum 1))] in
  if strict_eq (jget p "type") (JStr "SOLID") then
    Some (JObj (base ++ [("color", toColor (jget p "color"))]))%list
  else if is_gradient (jget p "type") then
    match map_throw extract_stop (list_of (safeArr (jget p "gradientStops"))) with
    | Some stops => Some (JObj (base ++ [("gradientStops", JArr stops)]))%list
    | None => None
    end
  else if strict_eq (jget p "type") (JStr "IMAGE") then
    Some (JObj (base ++ [("imageRef", safeStr (jget p "imageHash") (JStr ""));
                         ("scaleMode", safeStr (jget p "scaleMode") (JStr "FILL"))]))%list
  else Some (JObj base).

(** [extractEffect(e)]: it reads properties of a truthy value only, so it
    never throws; [JNull] is the returned [null]. *)
Definition extractEffect (e : jsval) : jsval :=
  if negb (truthy e) || is_symbol e then JNull else
  let base := [("type", safeStr (jget e "type") (JStr ""));
               ("visible", safeBool (jget e "visible") (JBool true));
               ("radius", safeNum (jget e "radius") (JNum 0))] in
  if strict_eq (jget e "type") (JStr "DROP_SHADOW")
     || strict_eq (jget e "type") (JStr "INNER_SHADOW") then
    let off := jget e "offset" in
    let offset :=
      if truthy off then
        JObj [("x", safeNum (jget off "x") (JNum 0)); ("y", safeNum (jget off "y") (JNum 0))]
      else JObj [("x", JNum 0); ("y", JNum 0)] in
    JObj (base ++ [("color", toColor (jget e "color")); ("offset", offset);
                   ("spread", safeNum (jget e "spread") (JNum 0))])%list
  else JObj base.

(** [.filter(function(p) { return p !== null; })]. *)
Definition drop_nulls (xs : list jsval) : list jsval :=
  filter (fun x => negb (is_null x)) xs.

(* ------------------------------------------------------------------------ *)
(** * Node serializer (code.js, extractDesignNode) *)

Definition MAX_TREE_DEPTH : nat := 15.

(** The serialized node, restricted to the identity, geometry, paint,
    effect, corner-radius and children fields.  An absent field is [None]. *)
Inductive snode : Type := mkSNode {
  sn_id : jsval;
  sn_name : jsval;
  sn_type : jsval;
  sn_visible : jsval;
  sn_width : jsval;
  sn_height : jsval;
  sn_fills : list jsval;
  sn_strokes : list jsval;
  sn_effects : list jsval;
  sn_cornerRadius : option jsval;
  sn_topLeftRadius : option jsval;
  sn_topRightRadius : option jsval;
  sn_bottomRightRadius : option jsval;
  sn_bottomLeftRadius : option jsval;
  sn_children : option (list snode)
}.

(** The corner-radius block: [cornerRadius], then the four per-corner
    fields [topLeftRadius], [topRightRadius], [bottomRightRadius],
    [bottomLeftRadius]. *)
Definition corner_fields (props : list (string * jsval))
  : option jsval * option jsval * option jsval * option jsval * option jsval :=
  let cr := safe (prop props "cornerRadius") JUndefined in
  if negb (is_null cr) then
    if String.eqb (typeof cr) "number" then (Some cr, None, None, None, None)
    else (None,
          Some (safeNum (prop props "topLeftRadius") (JNum 0)),
          Some (safeNum (prop props "topRightRadius") (JNum 0)),
          Some (safeNum (prop props "bottomRightRadius") (JNum 0)),
          Some (safeNum (prop props "bottomLeftRadius") (JNum 0)))
  else (None, None, None, None, None).

(** The loop [for (...) { try { out.push(f(x)); } catch(e) {} }]: the
    results of the calls that did not throw ([None]), in order. *)
Fixpoint keep_ok {A B} (f : A -> option B) (xs : list A) : list B :=
  match xs with
  | [] => []
  | x :: xs' => match f x with Some y => y :: keep_ok f xs' | None => keep_ok f xs' end
  end.

(** [None] is a thrown exception.  The paints of [fills] and [strokes] are
    mapped through [extractPaint] outside any [try], so a paint that throws
    makes the whole call throw; a child whose extraction throws is dropped
    by the [try { ... } catch(e) {}] around the push. *)
Fixpoint extractDesignNode (node : fnode) (depth : nat) {struct node} : option snode :=
  match node with
  | FRemoved => None
  | FNode props kids =>
    match map_throw extractPaint (list_of (safeArr (safe (prop props "fills") JUndefined))) with
    | None => None
    | Some fills =>
    match map_throw extractPaint (list_of (safeArr (safe (prop props "strokes") JUndefined))) with
    | None => None
    | Some strokes =>
    let effects := map extractEffect (list_of (safeArr (safe (prop props "effects") JUndefined))) in
    let '(cr, tl, tr, br, bl) := corner_fields props in
    let children :=
      if Nat.ltb depth MAX_TREE_DEPTH then
        match kids with
        | Some ks => Some (keep_ok (fun k => extractDesignNode k (S depth)) ks)
        | None => None
        end
      else None in
    Some {| sn_id := safeStr (prop props "id") (JStr "");
            sn_name := safeStr (prop props "name") (JStr "");
            sn_type := safeStr (prop props "type") (JStr "");
            sn_visible := safeBool (prop props "visible") (JBool true);
            sn_width := safeNum (prop props "width") (JNum 0);
            sn_height := safeNum (prop props "height") (JNum 0);
            sn_fills := drop_nulls fills;
            sn_strokes := drop_nulls strokes;
            sn_effects := drop_nulls effects;
            sn_cornerRadius := cr;
            sn_topLeftRadius := tl;
            sn_topRightRadius := tr;
            sn_bottomRightRadius := br;
            sn_bottomLeftRadius := bl;
            sn_children := children |}
    end
    end
  end.

(** Whether mapping [extractPaint] over the node's [fills] or over its
    [strokes] throws. *)
Definition paints_throw (props : list (string * jsval)) : bool :=
  match map_throw extractPaint (list_of (safeArr (safe (prop props "fills") JUndefined))),
        map_throw extractPaint (list_of (safeArr (safe (prop props "strokes") JUndefined))) with
  | Some _, Some _ => false
  | _, _ => true
  end.

(** Every serialized node of a snapshot, paired with its depth. *)
Fixpoint nodes_at (d : nat) (s : snode) : list (nat * snode) :=
  (d, s) :: match sn_children s with
            | None => []
            | Some cs => flat_map (nodes_at (S d)) cs
            end.

(* ------------------------------------------------------------------------ *)
(** * Asset collector (code.js, collectImageAssets and subtreeHasImage) *)

Definition MAX_IMAGE_SCAN_DEPTH : nat := 30.
Definition MAX_IMAGE_ASSETS : nat := 50.
Definition MAX_VECTOR_ASSETS : nat := 30.
Definition MAX_COMPOSITE_ASSETS : nat := 20.

(** Names every plain object inherits from [Object.prototype]: reading one
    of them on [{}] gives a truthy value. *)
Definition proto_keys : list string :=
  ["constructor"; "hasOwnProperty"; "isPrototypeOf"; "propertyIsEnumerable";
   "toString"; "toLocaleString"; "valueOf"; "__proto__"; "__defineGetter__";
   "__defineSetter__"; "__lookupGetter__"; "__lookupSetter__"].

(** [!!m[k]] for a plain object [m] whose own values are all truthy. *)
Definition obj_has {A} (m : list (string * A)) (k : string) : bool :=
  existsb (String.eqb k) proto_keys ||
  match assoc k m with Some _ => true | None => false end.

(** [m[k] = v]: an own key is overwritten in place, a new key is appended.
    The list keeps insertion order; [Object.keys] would list integer-like
    keys (array indices such as ["7"]) first, in numeric order. *)
Fixpoint obj_set {A} (k : string) (v : A) (m : list (string * A)) : list (string * A) :=
  match m with
  | [] => [(k, v)]
  | (k', v') :: m' => if String.eqb k k' then (k, v) :: m' else (k', v') :: obj_set k v m'
  end.

Record imageInfo := {
  ii_nodeId : jsval;
  ii_nodeName : jsval;
  ii_width : jsval;
  ii_height : jsval
}.

Record nodeEntry := {
  ne_node : fnode;
  ne_nodeId : jsval;
  ne_nodeName : jsval
}.

(** The shared accumulator [collected]. *)
Record collected := {
  imageHashes : list (string * imageInfo);
  vectorNodes : list nodeEntry;
  compositeNodes : list nodeEntry;
  compositeIds : list (string * bool);
  totalCount : nat
}.

(** The accumulator [sendCurrentSelection] starts every walk with. *)
Definition empty_collected : collected :=
  {| imageHashes := []; vectorNodes := []; compositeNodes := [];
     compositeIds := []; totalCount := 0 |}.

Inductive outcome := Returned | Threw.

(** [f && f.type === 'IMAGE' && f.imageHash]. *)
Definition is_image_fill (f : jsval) : bool :=
  truthy f && strict_eq (jget f "type") (JStr "IMAGE") && truthy (jget f "imageHash").

(** [None] is a thrown exception (a removed node within the peek). *)
Fixpoint subtreeHasImage (node : fnode) (d : nat) {struct node} : option bool :=
  if Nat.ltb 4 d then Some false else
  match node with
  | FRemoved => None
  | FNode props kids =>
    let fills := list_of (safeArr (safe (prop props "fills") JUndefined)) in
    if existsb is_image_fill fills then Some true else
    match kids with
    | None => Some false
    | Some ks =>
      (fix go (ks : list fnode) : option bool :=
         match ks with
         | [] => Some false
         | k :: ks' =>
           match subtreeHasImage k (S d) with
           | None => None
           | Some true => Some true
           | Some false => go ks'
           end
         end) ks
    end
  end.

(** One iteration of the fills loop. *)
Definition collect_fill (props : list (string * jsval)) (c : collected) (f : jsval) : collected :=
  if is_image_fill f then
    let hash := safeStr (jget f "imageHash") (JStr "") in
    if truthy hash && negb (obj_has (imageHashes c) (as_str hash)) then
      {| imageHashes :=
           obj_set (as_str hash)
             {| ii_nodeId := safeStr (prop props "id") (JStr "");
                ii_nodeName := safeStr (prop props "name") (JStr "");
                ii_width := safeNum (prop props "width") (JNum 0);
                ii_height := safeNum (prop props "height") (JNum 0) |}
             (imageHashes c);
         vectorNodes := vectorNodes c;
         compositeNodes := compositeNodes c;
         compositeIds := compositeIds c;
         totalCount := S (totalCount c) |}
    else c
  else c.

Definition node_type (props : list (string * jsval)) : string :=
  as_str (safeStr (prop props "type") (JStr "")).

(** The vector-node check. *)
Definition collect_vector (node : fnode) (props : list (string * jsval)) (c : collected) : collected :=
  let nt := node_type props in
  let isVector := String.eqb nt "VECTOR" || String.eqb nt "STAR" || String.eqb nt "LINE"
                  || String.eqb nt "POLYGON" || String.eqb nt "BOOLEAN_OPERATION" in
  let nodeVisible := truthy (safeBool (prop props "visible") (JBool true)) in
  let nodeW := as_num (safeNum (prop props "width") (JNum 0)) in
  let nodeH := as_num (safeNum (prop props "height") (JNum 0)) in
  if isVector && nodeVisible && (Qltb 0 nodeW || Qltb 0 nodeH)
     && Nat.ltb (List.length (vectorNodes c)) MAX_VECTOR_ASSETS then
    {| imageHashes := imageHashes c;
       vectorNodes := vectorNodes c ++
         [{| ne_node := node; ne_nodeId := safeStr (prop props "id") (JStr "");
             ne_nodeName := safeStr (prop props "name") (JStr "") |}];
       compositeNodes := compositeNodes c;
       compositeIds := compositeIds c;
       totalCount := S (totalCount c) |}
  else c.

(** The composite check; [None] when [subtreeHasImage] throws. *)
Definition collect_composite (node : fnode) (props : list (string * jsval)) (depth : nat)
    (c : collected) : option collected :=
  let nt := node_type props in
  let isContainer := String.eqb nt "INSTANCE" || String.eqb nt "COMPONENT"
                     || String.eqb nt "COMPONENT_SET" in
  let isClippedFrame := String.eqb nt "FRAME"
                        && truthy (safeBool (prop props "clipsContent") (JBool false)) in
  if (isContainer || isClippedFrame) && Nat.ltb 0 depth
     && Nat.ltb (List.length (compositeNodes c)) MAX_COMPOSITE_ASSETS then
    match subtreeHasImage node 0 with
    | None => None
    | Some hasImageDescendant =>
      let id := as_str (safeStr (prop props "id") (JStr "")) in
      if hasImageDescendant && negb (obj_has (compositeIds c) id) then
        Some {| imageHashes := imageHashes c;
                vectorNodes := vectorNodes c;
                compositeNodes := compositeNodes c ++
                  [{| ne_node := node; ne_nodeId := JStr id; ne_nodeName :=
                        safeStr (prop props "name") (JStr "") |}];
                compositeIds := obj_set id true (compositeIds c);
                totalCount := S (totalCount c) |}
      else Some c
    end
  else Some c.

(** [collectImageAssets(node, depth, collected)]: the accumulator after the
    call (mutations made before a throw persist), and whether it threw.
    Each child's call is wrapped in [try { ... } catch(e) {}]. *)
Fixpoint collectImageAssets (node : fnode) (depth : nat) (c : collected) {struct node}
  : collected * outcome :=
  if Nat.ltb MAX_IMAGE_SCAN_DEPTH depth then (c, Returned) else
  if Nat.leb (MAX_IMAGE_ASSETS + MAX_VECTOR_ASSETS + MAX_COMPOSITE_ASSETS) (totalCount c)
  then (c, Returned) else
  match node with
  | FRemoved => (c, Threw)
  | FNode props kids =>
    if strict_eq (safeBool (prop props "visible") (JBool true)) (JBool false)
    then (c, Returned) else
    let c1 := fold_left (collect_fill props)
                (list_of (safeArr (safe (prop props "fills") JUndefined))) c in
    let c2 := collect_vector node props c1 in
    match collect_composite node props depth c2 with
    | None => (c2, Threw)
    | Some c3 =>
      match kids with
      | None => (c3, Returned)
      | Some ks =>
        (fold_left (fun c k => fst (collectImageAssets k (S depth) c)) ks c3, Returned)
      end
    end
  end.

(** The image-fill part of [exportImageAssets]: one asset, with id [hash],
    per key of [imageHashes] among the first [MAX_IMAGE_ASSETS], for which
    the image resolves and its bytes load ([ok]). *)
Definition image_fill_export_ids (ok : string -> bool) (c : collected) : list string :=
  filter ok (firstn MAX_IMAGE_ASSETS (map fst (imageHashes c))).

(* ------------------------------------------------------------------------ *)
(** * Composite export scale (code.js, exportImageAssets, composite loop) *)

Definition COMPOSITE_MAX_PX : Q := 512.

(** [Math.max(a, b)]. *)
Definition js_max (a b : Q) : Q := if Qle_bool a b then b else a.

(** [Math.round(x)]: the nearest integer, halves rounded up. *)
Definition js_round (x : Q) : Z := Qfloor (x + (1 # 2)).

Record compositeExport := {
  ce_scale : Q;
  ce_width : Z;
  ce_height : Z
}.

(** The [SCALE] constraint passed to [exportAsync] and the [width] and
    [height] recorded on the resulting asset, for a composite node. *)
Definition composite_export (props : list (string * jsval)) : compositeExport :=
  let w := as_num (safeNum (prop props "width") (JNum 1)) in
  let h := as_num (safeNum (prop props "height") (JNum 1)) in
  let maxDim := js_max w h in
  let scale := if Qltb COMPOSITE_MAX_PX maxDim then COMPOSITE_MAX_PX / maxDim else 1 in
  {| ce_scale := scale; ce_width := js_round (w * scale); ce_height := js_round (h * scale) |}.

(* ------------------------------------------------------------------------ *)
(** * Relay: selection store and asset storage
      (mcp-server/src/store/selectionStore.ts, store/imageStorage.ts) *)

Record ImageAsset := {
  a_id : string;
  a_format : string;
  a_data : string;
  a_nodeId : jsval;
  a_nodeName : jsval;
  a_width : jsval;
  a_height : jsval;
  a_assetType : string;
  a_filePath : option string
}.

Record SelectionState := {
  fileId : jsval;
  nodeId : jsval;
  pageId : jsval;
  userId : jsval;
  metadata : jsval;
  designTree : jsval;
  images : list (string * ImageAsset);
  timestamp : Z
}.

(** The singleton store together with the files of the [figma-assets/]
    directory (file name and written contents; the base64 decoding of
    [Buffer.from] is not modelled, the contents are the transported data). *)
Record Store := {
  current : option SelectionState;
  disk : list (string * string)
}.

Definition ASSETS_DIR : string := "figma-assets".

(** [sanitize]: every character outside [a-zA-Z0-9_-] becomes '_'. *)
Definition sanitize_char (c : ascii) : ascii :=
  let n := nat_of_ascii c in
  if (Nat.leb 97 n && Nat.leb n 122) || (Nat.leb 65 n && Nat.leb n 90)
     || (Nat.leb 48 n && Nat.leb n 57) || Nat.eqb n 95 || Nat.eqb n 45
  then c else "_"%char.

Fixpoint sanitize (s : string) : string :=
  match s with
  | EmptyString => EmptyString
  | String c s' => String (sanitize_char c) (sanitize s')
  end.

(** [clearAssets]: every file of the directory is deleted. *)
Definition clearAssets (files : list (string * string)) : list (string * string) := [].

(** [writeAssets]: the files written and the map asset id to file path. *)
Definition writeAssets (assets : list ImageAsset) (files : list (string * string))
  : list (string * string) * list (string * string) :=
  fold_left
    (fun '(paths, fs) a =>
       let filename := sanitize (a_id a) ++ "." ++ a_format a in
       let filePath := ASSETS_DIR ++ "/" ++ filename in
       (obj_set (a_id a) filePath paths, obj_set filename (a_data a) fs))
    assets ([], files).

(** [SelectionStore.set]. *)
Definition store_set (sel : SelectionState) (st : Store) : Store :=
  {| current := Some sel; disk := clearAssets (disk st) |}.

Definition with_filePath (a : ImageAsset) (p : option string) : ImageAsset :=
  {| a_id := a_id a; a_format := a_format a; a_data := a_data a; a_nodeId := a_nodeId a;
     a_nodeName := a_nodeName a; a_width := a_width a; a_height := a_height a;
     a_assetType := a_assetType a; a_filePath := p |}.

Definition with_images (s : SelectionState) (m : list (string * ImageAsset)) : SelectionState :=
  {| fileId := fileId s; nodeId := nodeId s; pageId := pageId s; userId := userId s;
     metadata := metadata s; designTree := designTree s; images := m;
     timestamp := timestamp s |}.

(** [SelectionStore.setImages(nodeId, assets)]. *)
Definition setImages (nid : jsval) (assets : list ImageAsset) (st : Store) : bool * Store :=
  match current st with
  | None => (false, st)
  | Some cur =>
    if negb (strict_eq (nodeId cur) nid) then (false, st) else
    let '(filePaths, files) := writeAssets assets (disk st) in
    let map := fold_left
                 (fun m a => obj_set (a_id a) (with_filePath a (assoc (a_id a) filePaths)) m)
                 assets (images cur) in
    (true, {| current := Some (with_images cur map); disk := files |})
  end.

(* ------------------------------------------------------------------------ *)
(** * Relay: HTTP handler [POST /selection] (store/imageStorage.ts, createApp) *)

Inductive response := Resp (status : nat) (body : jsval).

(** [Object.keys] of a parsed JSON object, in the body's order (the index
    keys of an array body, and the numeric-first order [Object.keys] gives
    integer-like keys, are not modelled). *)
Definition obj_keys (v : jsval) : list string :=
  match v with JObj fs => map fst fs | _ => [] end.

Definition selection_error : string :=
  "Invalid payload. Required fields: fileId, nodeId, metadata".

(** The handler at the request time [now]. *)
Definition post_selection (now : Z) (reqBody : jsval) (st : Store) : response * Store :=
  let body := if truthy reqBody then reqBody else JObj [] in
  let fid := jget body "fileId" in
  let nid := jget body "nodeId" in
  let pid := jget body "pageId" in
  let uid := jget body "userId" in
  let md := jget body "metadata" in
  let dt := jget body "designTree" in
  if negb (truthy fid) || negb (truthy nid) || negb (truthy md) then
    (Resp 400 (JObj [("error", JStr selection_error);
                     ("received", JArr (map JStr (obj_keys body)))]), st)
  else
    (Resp 200 (JObj [("ok", JBool true)]),
     store_set {| fileId := fid; nodeId := nid;
                  pageId := if truthy pid then pid else JStr "unknown";
                  userId := if truthy uid then uid else JStr "anonymous";
                  metadata := md; designTree := dt; images := []; timestamp := now |} st).

(** [msg] contains [name]. *)
Definition mentions (name msg : string) : bool :=
  match String.index 0 name msg with Some _ => true | None => false end.

(* ------------------------------------------------------------------------ *)
(** * Signatures of the raster formats *)

Definition png_magic : list Z := [0x89; 0x50; 0x4E; 0x47]%Z.
Definition jpeg_soi : list Z := [0xFF; 0xD8]%Z.
Definition gif_header : list Z := [0x47; 0x49; 0x46]%Z.
Definition webp_tag : list Z := [0x57; 0x45; 0x42; 0x50]%Z.

(** [bytes] carries [pat] at offset [off]. *)
Definition tag_at (bytes : list Z) (off : nat) (pat : list Z) : Prop :=
  firstn (List.length pat) (skipn off bytes) = pat.

(* ------------------------------------------------------------------------ *)
(** * Base64 encoding of exported bytes (code.js, uint8ToBase64) *)

Definition CHARS : string :=
  "ABCDEFGHIJKLMNOPQRSTUVWXYZabcdefghijklmnopqrstuvwxyz0123456789+/".

(** [CHARS[idx]] pushed on [parts]: an index outside the alphabet reads
    undefined, which [parts.join('')] renders as the empty string. *)
Definition char_at (idx : Z) : string :=
  if Z.ltb idx 0 then "" else
  match String.get (Z.to_nat idx) CHARS with
  | Some c => String c EmptyString
  | None => ""
  end.

(** The four parts pushed by the loop iteration at index [i]. *)
Definition enc_group (u8 : list Z) (len i : nat) : string :=
  let b0 := nth i u8 0%Z in
  char_at (Z.shiftr b0 2) ++
  char_at (Z.lor (Z.shiftl (Z.land b0 3) 4)
                 (Z.shiftr (if Nat.ltb (i + 1) len then nth (i + 1) u8 0%Z else 0%Z) 4)) ++
  (if Nat.ltb (i + 1) len then
     char_at (Z.lor (Z.shiftl (Z.land (nth (i + 1) u8 0%Z) 15) 2)
                    (Z.shiftr (if Nat.ltb (i + 2) len then nth (i + 2) u8 0%Z else 0%Z) 6))
   else "=") ++
  (if Nat.ltb (i + 2) len then char_at (Z.land (nth (i + 2) u8 0%Z) 63) else "=").

(** [for (var i = 0; i < len; i += 3)] runs for [i = 3k], [k < ceil(len/3)]. *)
Definition uint8ToBase64 (u8 : list Z) : string :=
  let len := List.length u8 in
  String.concat "" (map (fun k => enc_group u8 len (3 * k)) (seq 0 ((len + 2) / 3))).

(** Reference decoder for padded base64 text, as the relay's
    [Buffer.from(data, 'base64')] reads the plugin's output. *)
Fixpoint b64_value_from (c : ascii) (s : string) (n : Z) : option Z :=
  match s with
  | EmptyString => None
  | String c' s' => if Ascii.eqb c c' then Some n else b64_value_from c s' (n + 1)
  end.

Definition b64_value (c : ascii) : Z :=
  match b64_value_from c CHARS 0 with Some v => v | None => 0%Z end.

Fixpoint base64_decode (s : string) : list Z :=
  match s with
  | String c0 (String c1 (String c2 (String c3 rest))) =>
    let v0 := b64_value c0 in
    let v1 := b64_value c1 in
    let v2 := b64_value c2 in
    let v3 := b64_value c3 in
    let a := (v0 * 4 + v1 / 16)%Z in
    if Ascii.eqb c2 "=" then [a] else
    let b := ((v1 mod 16) * 16 + v2 / 4)%Z in
    if Ascii.eqb c3 "=" then [a; b] else
    a :: b :: ((v2 mod 4) * 64 + v3)%Z :: base64_decode rest
  | _ => []
  end.

(* ------------------------------------------------------------------------ *)
(** * Relay: asset paths, [clear], [getImage] and the image routes
      (store/imageStorage.ts, store/selectionStore.ts) *)

(** The file name [`${sanitize(id)}.${format}`] inside [figma-assets/]. *)
Definition asset_filename (id format : string) : string :=
  sanitize id ++ "." ++ format.

(** [getAssetPath(id, format)]. *)
Definition getAssetPath (id format : string) : string :=
  ASSETS_DIR ++ "/" ++ asset_filename id format.

(** [assetExists(id, format)]. *)
Definition assetExists (id format : string) (st : Store) : bool :=
  match assoc (asset_filename id format) (disk st) with Some _ => true | None => false end.

(** [SelectionStore.clear()]. *)
Definition store_clear (st : Store) : Store :=
  {| current := None; disk := clearAssets (disk st) |}.

(** What [images[id]] reads on the spread object [map]: an own entry, a
    member inherited from [Object.prototype] (a function, or the prototype
    itself for [__proto__]), or undefined. *)
Inductive lookup := Own (a : ImageAsset) | Inherited | Absent.

(** [SelectionStore.getImage(id)]: [this.current?.images?.[id]]. *)
Definition getImage (id : string) (st : Store) : lookup :=
  match current st with
  | None => Absent
  | Some cur =>
    match assoc id (images cur) with
    | Some a => Own a
    | None => if existsb (String.eqb id) proto_keys then Inherited else Absent
    end
  end.

(** [asset.k] on what [getImage] returned: an inherited member has no
    [filePath], [format] or [data] of its own. *)
Definition found_field (f : lookup) (k : string) : jsval :=
  match f with
  | Own a =>
    if String.eqb k "filePath" then
      match a_filePath a with Some p => JStr p | None => JUndefined end
    else if String.eqb k "format" then JStr (a_format a)
    else if String.eqb k "data" then JStr (a_data a)
    else JUndefined
  | _ => JUndefined
  end.

(** [mimeMap[format] || 'image/png']. *)
Definition mime_of (format : jsval) : string :=
  match format with
  | JStr "png" => "image/png"
  | JStr "jpg" | JStr "jpeg" => "image/jpeg"
  | JStr "gif" => "image/gif"
  | JStr "webp" => "image/webp"
  | _ => "image/png"
  end.

(** [serveFromMemory(asset, res)]: the Content-Type sent, or [None] when
    [Buffer.from(asset.data, 'base64')] throws (its argument is not a
    string: here, undefined). *)
Definition serveFromMemory (format data : jsval) : option string :=
  match data with
  | JStr _ => Some (if strict_eq format (JStr "svg") then "image/svg+xml" else mime_of format)
  | _ => None
  end.

(** The status of [GET /selection/images/:id]; [sendFileOk] says whether
    [res.sendFile] finds the file.  A synchronous throw in the handler
    reaches the error handler, which answers 500 for an error with no
    [status], no [statusCode], no [type] and not a [SyntaxError]. *)
Definition get_image_status (id : string) (st : Store) (sendFileOk : bool) : nat :=
  let asset := getImage id st in
  match asset with
  | Absent => 404
  | _ =>
    let fromMemory :=
      match serveFromMemory (found_field asset "format") (found_field asset "data") with
      | Some _ => 200%nat
      | None => 500%nat
      end in
    if truthy (found_field asset "filePath") then
      (if sendFileOk then 200 else fromMemory)
    else fromMemory
  end.

(** [POST /selection/images] with the body's [nodeId] and [assets]
    ([None] when [assets] is missing or not an array). *)
Definition post_images (nid : jsval) (assets : option (list ImageAsset)) (st : Store)
  : response * Store :=
  let bad := (Resp 400 (JObj [("error", JStr "Invalid payload. Required: nodeId, assets[]")]), st) in
  if negb (truthy nid) then bad else
  match assets with
  | None => bad
  | Some xs =>
    let '(ok, st') := setImages nid xs st in
    if ok then
      (Resp 200 (JObj [("ok", JBool true); ("count", JNum (Z.of_nat (List.length xs) # 1));
                       ("assetsDir", JStr ASSETS_DIR)]), st')
    else (Resp 409 (JObj [("error", JStr "Selection changed; images discarded")]), st')
  end.

(** The relay's state-changing requests. *)
Inductive request :=
| PostSelection (now : Z) (body : jsval)
| PostImages (nid : jsval) (assets : option (list ImageAsset))
| DeleteSelection.

Definition relay_step (st : Store) (r : request) : Store :=
  match r with
  | PostSelection now body => snd (post_selection now body st)
  | PostImages nid assets => snd (post_images nid assets st)
  | DeleteSelection => store_clear st
  end.

Definition empty_store : Store := {| current := None; disk := [] |}.

(** The formats the plugin gives its assets: [detectImageFormat]'s, and
    ['svg'] for vectors. *)
Definition plugin_formats : list string := ["png"; "jpg"; "gif"; "webp"; "svg"].

(** An asset the model covers: its format is one of [plugin_formats], its
    id is not [__proto__] (assigning [m['__proto__']] replaces the
    prototype instead of creating an own entry), and its file name is at
    most 255 characters.  Its file name [sanitize(id) + '.' + format] then
    has no [/] and is neither [.] nor [..], so [path.join(ASSETS_DIR,
    filename)] is the plain concatenation.  The file system is assumed to
    accept the writes ([mkdirSync] and [writeFileSync] do not fail). *)
Definition writable_asset (a : ImageAsset) : bool :=
  negb (String.eqb (a_id a) "__proto__") &&
  existsb (String.eqb (a_format a)) plugin_formats &&
  Nat.leb (String.length (asset_filename (a_id a) (a_format a))) 255.

(** A request whose image batch, if any, consists of [writable_asset]s. *)
Definition writable_request (r : request) : bool :=
  match r with
  | PostImages _ (Some xs) => forallb writable_asset xs
  | _ => true
  end.

(* ------------------------------------------------------------------------ *)
(** * Plugin: selection events (code.js, sendCurrentSelection) *)

(** The messages the plugin posts to its UI, reduced to their [type] and
    the node ids they carry. *)
Inductive ui_message :=
| SelectionCleared
| MultiSelection (count : nat) (nodes : list string)
| SelectionChanged (nodeId : string)
| ImagesExtracted (nodeId : string).

(** The plugin's globals, the exports still in flight (their [mySeq] and
    [capturedNodeId]), and the messages posted so far, latest last. *)
Record plugin := {
  lastNodeId : option string;
  selectionSeq : nat;
  pending : list (nat * string);
  posted : list ui_message
}.

Definition plugin_init : plugin :=
  {| lastNodeId := None; selectionSeq := 0; pending := []; posted := [] |}.

(** [node.id] of a selected (live) node. *)
Definition node_id (node : fnode) : string :=
  match node with FNode props _ => as_str (prop props "id") | FRemoved => "" end.

(** [assetCount] after the walk of [collectImageAssets(node, 0, collected)]. *)
Definition asset_count (node : fnode) : nat :=
  let c := fst (collectImageAssets node 0 empty_collected) in
  List.length (imageHashes c) + List.length (vectorNodes c) + List.length (compositeNodes c).

(** [sendCurrentSelection(force)] on [figma.currentPage.selection]; an
    export is started (and becomes pending) when [assetCount > 0]. *)
Definition sendCurrentSelection (force : bool) (selection : list fnode) (st : plugin) : plugin :=
  match selection with
  | [] =>
    {| lastNodeId := None; selectionSeq := selectionSeq st; pending := pending st;
       posted := posted st ++ [SelectionCleared] |}
  | [node] =>
    let id := node_id node in
    if negb force && match lastNodeId st with Some l => String.eqb id l | None => false end
    then st else
    let mySeq := S (selectionSeq st) in
    {| lastNodeId := Some id; selectionSeq := mySeq;
       pending := if Nat.ltb 0 (asset_count node) then pending st ++ [(mySeq, id)]
                  else pending st;
       posted := posted st ++ [SelectionChanged id] |}
  | _ =>
    {| lastNodeId := lastNodeId st; selectionSeq := selectionSeq st; pending := pending st;
       posted := posted st ++ [MultiSelection (List.length selection)
                                 (map node_id (firstn 5 selection))] |}
  end.

(** The export started with [mySeq = k] resolves with [n] assets:
    [if (assets.length > 0 && mySeq === selectionSeq)] it posts them. *)
Definition export_done (k n : nat) (st : plugin) : plugin :=
  match find (fun p => Nat.eqb (fst p) k) (pending st) with
  | None => st
  | Some (_, capturedNodeId) =>
    {| lastNodeId := lastNodeId st; selectionSeq := selectionSeq st;
       pending := filter (fun p => negb (Nat.eqb (fst p) k)) (pending st);
       posted := if Nat.ltb 0 n && Nat.eqb k (selectionSeq st)
                 then posted st ++ [ImagesExtracted capturedNodeId] else posted st |}
  end.

(** A (debounced) [selectionchange] or a [refresh] message calls
    [sendCurrentSelection]; an export promise resolves. *)
Inductive plugin_event :=
| SelectionEvent (force : bool) (selection : list fnode)
| ExportResolved (k n : nat).

Definition plugin_step (st : plugin) (ev : plugin_event) : plugin :=
  match ev with
  | SelectionEvent force sel => sendCurrentSelection force sel st
  | ExportResolved k n => export_done k n st
  end.
(* ======================================================================== *)
(** * Properties *)

(** ** Value normalizers *)

(** C2. For every input value, the sentinel included, each normalizer is a
    total function that returns a value of its kind (or, for [safe], the
    input itself) unless it returns the caller-supplied fallback (or the
    built-in default when no fallback is supplied); the sentinel [mixed]
    gives the same result as [null] and [undefined], and a symbol appears
    in an output only when it is the caller-supplied fallback. *)
Theorem normalizers_total_mixed_as_null : forall (val fb : jsval),
  (* safe *)
  ((safe val fb = val /\ (is_null val || is_undefined val) = false
                      /\ String.eqb (typeof val) "symbol" = false)
   \/ (is_undefined fb = false /\ safe val fb = fb)
   \/ (is_undefined fb = true /\ safe val fb = JNull)) /\
  (* safeNum, safeStr, safeBool *)
  (typeof (safeNum val fb) = "number" \/ (is_undefined fb = false /\ safeNum val fb = fb)) /\
  (typeof (safeStr val fb) = "string" \/ (is_undefined fb = false /\ safeStr val fb = fb)) /\
  (typeof (safeBool val fb) = "boolean" \/ (is_undefined fb = false /\ safeBool val fb = fb)) /\
  (* safeArr *)
  isArray (safeArr val) = true /\
  (* the sentinel is handled like null and undefined *)
  (safe mixed fb = safe JNull fb /\ safe JUndefined fb = safe JNull fb) /\
  (safeNum mixed fb = safeNum JNull fb /\ safeNum JUndefined fb = safeNum JNull fb) /\
  (safeStr mixed fb = safeStr JNull fb /\ safeStr JUndefined fb = safeStr JNull fb) /\
  (safeBool mixed fb = safeBool JNull fb /\ safeBool JUndefined fb = safeBool JNull fb) /\
  (safeArr mixed = safeArr JNull /\ safeArr JUndefined = safeArr JNull) /\
  (* a symbol in an output is always the caller's fallback *)
  (forall t, (safe val fb = JSymbol t \/ safeNum val fb = JSymbol t \/
              safeStr val fb = JSymbol t \/ safeBool val fb = JSymbol t \/
              safeArr val = JSymbol t) -> fb = JSymbol t).
Proof.
  intros val fb.
  repeat split; try (destruct fb; reflexivity).
  - destruct val; destruct fb; cbn; auto 10.
  - destruct val; destruct fb; cbn; auto.
  - destruct val; destruct fb; cbn; auto.
  - destruct val; destruct fb; cbn; auto.
  - destruct val; reflexivity.
  - intros t H. destruct val; destruct fb; cbn in H;
      repeat (destruct H as [H|H]); try discriminate; congruence.
Qed.

(** ** Image format detection *)

Lemma twelve_bytes (bytes : list Z) :
  (12 <= List.length bytes)%nat ->
  exists b0 b1 b2 b3 b4 b5 b6 b7 b8 b9 b10 b11 rest,
    bytes = b0 :: b1 :: b2 :: b3 :: b4 :: b5 :: b6 :: b7 :: b8 :: b9 :: b10 :: b11 :: rest.
Proof.
  intro H.
  destruct bytes as [|b0 [|b1 [|b2 [|b3 [|b4 [|b5 [|b6 [|b7 [|b8 [|b9 [|b10 [|b11 rest]]]]]]]]]]]];
    cbn in H; try lia.
  do 13 eexists. reflexivity.
Qed.

Ltac bytes_bool :=
  repeat match goal with
         | H : (_ && _)%bool = true |- _ => apply andb_prop in H; destruct H
         | H : Z.eqb _ _ = true |- _ => apply Z.eqb_eq in H; subst
         end.

(** Reduces the length guard and the byte reads of [detectImageFormat] on
    an explicit array of at least 12 bytes, and discharges a signature
    branch that a hypothesis excludes. *)
Ltac skip_branch Hn :=
  match goal with
  | |- context [if ?c then _ else _] =>
    let E := fresh "E" in
    destruct c eqn:E; [bytes_bool; exfalso; apply Hn; reflexivity |]
  end.

(** C7 (counterexample). The JPEG clause of the claim fails on the
    two-byte array FF D8: the result is "png", not "jpg". *)
Lemma detect_jpeg_prefix_not_jpg :
  ~ (forall bytes : list Z,
       (tag_at bytes 0 png_magic -> detectImageFormat bytes = "png") /\
       (tag_at bytes 0 jpeg_soi -> detectImageFormat bytes = "jpg") /\
       (tag_at bytes 0 gif_header -> detectImageFormat bytes = "gif") /\
       (tag_at bytes 8 webp_tag -> detectImageFormat bytes = "webp")).
Proof.
  intro H. destruct (H [0xFF; 0xD8]%Z) as [_ [Hj _]].
  specialize (Hj eq_refl). discriminate Hj.
Qed.

(** C7 (amended). The format is a function of the byte array alone (of its
    first 12 bytes); arrays shorter than 12 bytes give "png"; on arrays of
    12 or more bytes the PNG magic gives "png", the JPEG SOI marker FF D8
    gives "jpg", the GIF header gives "gif", and the WEBP tag at offset 8
    gives "webp" when none of the three leading signatures is present. *)
Theorem detectImageFormat_by_leading_bytes : forall bytes : list Z,
  ((List.length bytes < 12)%nat -> detectImageFormat bytes = "png") /\
  ((12 <= List.length bytes)%nat ->
     detectImageFormat bytes = detectImageFormat (firstn 12 bytes) /\
     (tag_at bytes 0 png_magic -> detectImageFormat bytes = "png") /\
     (tag_at bytes 0 jpeg_soi -> detectImageFormat bytes = "jpg") /\
     (tag_at bytes 0 gif_header -> detectImageFormat bytes = "gif") /\
     (~ tag_at bytes 0 png_magic -> ~ tag_at bytes 0 jpeg_soi ->
      ~ tag_at bytes 0 gif_header -> tag_at bytes 8 webp_tag ->
      detectImageFormat bytes = "webp")).
Proof.
  intro bytes. split.
  - intro H. unfold detectImageFormat.
    apply Nat.ltb_lt in H. rewrite H. reflexivity.
  - intro H.
    destruct (twelve_bytes bytes H)
      as (b0 & b1 & b2 & b3 & b4 & b5 & b6 & b7 & b8 & b9 & b10 & b11 & rest & ->).
    unfold tag_at; cbn.
    repeat split.
    + intro Hp. injection Hp as -> -> -> ->. reflexivity.
    + intro Hj. injection Hj as -> ->. reflexivity.
    + intro Hg. injection Hg as -> -> ->. reflexivity.
    + intros Hp Hj Hg Hw. injection Hw as -> -> -> ->.
      skip_branch Hp. skip_branch Hj. skip_branch Hg. reflexivity.
Qed.

Lemma detectImageFormat_by_leading_bytes_witness :
  List.length [0xFF; 0xD8; 0xFF; 0xE0; 0; 0; 0; 0; 0x57; 0x45; 0x42; 0x50]%Z = 12%nat /\
  detectImageFormat [0xFF; 0xD8; 0xFF; 0xE0; 0; 0; 0; 0; 0x57; 0x45; 0x42; 0x50]%Z = "jpg".
Proof.
  split; [reflexivity |].
  apply (proj2 (detectImageFormat_by_leading_bytes
                  [0xFF; 0xD8; 0xFF; 0xE0; 0; 0; 0; 0; 0x57; 0x45; 0x42; 0x50]%Z)).
  - cbn. lia.
  - reflexivity.
Defined.

(** C10. Arrays shorter than 12 bytes give "png" whatever their contents,
    JPEG and GIF prefixes included; arrays of 12 or more bytes matching none
    of the four signatures give "png" as well. *)
Theorem detectImageFormat_png_default : forall bytes : list Z,
  ((List.length bytes < 12)%nat -> detectImageFormat bytes = "png") /\
  ((12 <= List.length bytes)%nat ->
     ~ tag_at bytes 0 png_magic -> ~ tag_at bytes 0 jpeg_soi ->
     ~ tag_at bytes 0 gif_header -> ~ tag_at bytes 8 webp_tag ->
     detectImageFormat bytes = "png").
Proof.
  intro bytes. split.
  - intro H. unfold detectImageFormat.
    apply Nat.ltb_lt in H. rewrite H. reflexivity.
  - intros H Hp Hj Hg Hw.
    destruct (twelve_bytes bytes H)
      as (b0 & b1 & b2 & b3 & b4 & b5 & b6 & b7 & b8 & b9 & b10 & b11 & rest & ->).
    unfold tag_at in *; cbn in *.
    skip_branch Hp. skip_branch Hj. skip_branch Hg. skip_branch Hw. reflexivity.
Qed.

Lemma detectImageFormat_png_default_witness :
  detectImageFormat [0xFF; 0xD8; 0xFF]%Z = "png" /\
  detectImageFormat [0; 0; 0; 0; 0; 0; 0; 0; 0; 0; 0; 0]%Z = "png".
Proof.
  split.
  - apply (proj1 (detectImageFormat_png_default [0xFF; 0xD8; 0xFF]%Z)). cbn. lia.
  - apply (proj2 (detectImageFormat_png_default [0; 0; 0; 0; 0; 0; 0; 0; 0; 0; 0; 0]%Z));
      unfold tag_at; cbn; try lia; discriminate.
Defined.

(** ** Selection correlator *)

(** C1. When no selection is stored, or the stored selection's node id is
    not the batch's node id [A], [setImages] returns [false] and leaves the
    store, its asset map and the asset directory exactly as they were. *)
Theorem setImages_rejects_stale_batch :
  forall (A : jsval) (assets : list ImageAsset) (st : Store),
  match current st with
  | None => True
  | Some cur => strict_eq (nodeId cur) A = false
  end ->
  setImages A assets st = (false, st).
Proof.
  intros A assets st H. unfold setImages.
  destruct (current st) as [cur|]; [| reflexivity].
  rewrite H. reflexivity.
Qed.

Definition sample_asset : ImageAsset :=
  {| a_id := "h1"; a_format := "png"; a_data := "iVBORw0KGgo="; a_nodeId := JStr "2:7";
     a_nodeName := JStr "Photo"; a_width := JNum 100; a_height := JNum 50;
     a_assetType := "image-fill"; a_filePath := None |}.

Definition store_on (nid : string) : Store :=
  {| current := Some {| fileId := JStr "F"; nodeId := JStr nid; pageId := JStr "0:1";
                        userId := JStr "anonymous"; metadata := JObj []; designTree := JNull;
                        images := [("h0", sample_asset)]; timestamp := 0 |};
     disk := [("h0.png", "iVBORw0KGgo=")] |}.

Lemma setImages_rejects_stale_batch_witness :
  setImages (JStr "1:2") [sample_asset] (store_on "3:4") = (false, store_on "3:4").
Proof. apply setImages_rejects_stale_batch. reflexivity. Defined.

(** ** Boundary validation of [POST /selection] *)

Definition required_fields : list string := ["fileId"; "nodeId"; "metadata"].

(** The required identity fields that are absent or falsy in a body. *)
Definition missing_fields (reqBody : jsval) : list string :=
  let body := if truthy reqBody then reqBody else JObj [] in
  filter (fun f => negb (truthy (jget body f))) required_fields.

(** C9. A push missing a required identity field is answered with status
    400 and a structured error whose message names every missing field,
    and the store (selection and asset files) is left unchanged; a push
    carrying all three is answered with status 200, so the validation
    failure is the only error this handler returns. *)
Theorem post_selection_rejects_missing_fields :
  forall (now : Z) (reqBody : jsval) (st : Store),
  (missing_fields reqBody <> [] ->
     exists err,
       post_selection now reqBody st = (Resp 400 err, st) /\
       forall f, In f (missing_fields reqBody) -> mentions f (as_str (jget err "error")) = true) /\
  (missing_fields reqBody = [] ->
     fst (post_selection now reqBody st) = Resp 200 (JObj [("ok", JBool true)])).
Proof.
  intros now reqBody st.
  unfold missing_fields, post_selection, required_fields.
  set (b := if truthy reqBody then reqBody else JObj []).
  cbn [filter].
  destruct (truthy (jget b "fileId")), (truthy (jget b "nodeId")), (truthy (jget b "metadata"));
    cbn; split; intro H; try congruence;
    eexists; (split; [reflexivity |]);
    intros f Hf; cbn in Hf; repeat (destruct Hf as [<-|Hf]); try contradiction; reflexivity.
Qed.

Lemma post_selection_rejects_missing_fields_witness :
  missing_fields (JObj [("fileId", JStr "F"); ("metadata", JObj [])]) = ["nodeId"] /\
  exists err,
    post_selection 0 (JObj [("fileId", JStr "F"); ("metadata", JObj [])]) (store_on "1:2")
    = (Resp 400 err, store_on "1:2") /\
    mentions "nodeId" (as_str (jget err "error")) = true.
Proof.
  split; [reflexivity |].
  destruct (proj1 (post_selection_rejects_missing_fields 0
                     (JObj [("fileId", JStr "F"); ("metadata", JObj [])]) (store_on "1:2")))
    as [err [Hr Hm]].
  - discriminate.
  - exists err. split; [exact Hr |]. apply Hm. left. reflexivity.
Defined.

(** ** Composite export scale *)

Lemma Qltb_true (a b : Q) : Qltb a b = true <-> a < b.
Proof.
  unfold Qltb. rewrite negb_true_iff. split.
  - intro H. apply Qnot_le_lt. intro H'. apply Qle_bool_iff in H'. congruence.
  - intro H. destruct (Qle_bool b a) eqn:E; [| reflexivity].
    apply Qle_bool_iff in E. exfalso. apply (Qlt_not_le a b H E).
Qed.

(** C8. With [w] and [h] the normalized width and height (default 1), the
    export scale is [COMPOSITE_MAX_PX / max w h] when [max w h] exceeds the
    cap and exactly 1 otherwise, it never exceeds 1, the same scale is
    applied to both recorded dimensions, and a 2000 x 1000 composite is
    exported at scale 0.256 with recorded size 512 x 256. *)
Theorem composite_export_scale : forall props : list (string * jsval),
  let w := as_num (safeNum (prop props "width") (JNum 1)) in
  let h := as_num (safeNum (prop props "height") (JNum 1)) in
  let e := composite_export props in
  (COMPOSITE_MAX_PX < js_max w h -> ce_scale e = COMPOSITE_MAX_PX / js_max w h) /\
  (js_max w h <= COMPOSITE_MAX_PX -> ce_scale e = 1) /\
  ce_scale e <= 1 /\
  ce_width e = js_round (w * ce_scale e) /\ ce_height e = js_round (h * ce_scale e) /\
  (ce_scale (composite_export [("width", JNum 2000); ("height", JNum 1000)]) == 256 # 1000 /\
   ce_width (composite_export [("width", JNum 2000); ("height", JNum 1000)]) = 512%Z /\
   ce_height (composite_export [("width", JNum 2000); ("height", JNum 1000)]) = 256%Z).
Proof.
  intros props w h e. unfold e, composite_export. fold w h.
  cbn [ce_scale ce_width ce_height].
  split; [| split; [| split; [| split; [reflexivity | split; [reflexivity |]]]]].
  - intro H. apply Qltb_true in H. rewrite H. reflexivity.
  - intro H. destruct (Qltb COMPOSITE_MAX_PX (js_max w h)) eqn:E; [| reflexivity].
    apply Qltb_true in E. exfalso. apply (Qlt_not_le _ _ E H).
  - destruct (Qltb COMPOSITE_MAX_PX (js_max w h)) eqn:E; [| apply Qle_refl].
    apply Qltb_true in E.
    apply Qle_shift_div_r.
    + apply Qlt_trans with COMPOSITE_MAX_PX; [reflexivity | exact E].
    + rewrite Qmult_1_l. apply Qlt_le_weak. exact E.
  - split; [reflexivity | split; reflexivity].
Qed.

Lemma composite_export_scale_witness :
  ce_scale (composite_export [("width", JNum 600); ("height", JNum 300)]) = 512 / 600 /\
  ce_scale (composite_export [("width", JNum 200); ("height", JNum 100)]) = 1.
Proof.
  split.
  - apply (composite_export_scale [("width", JNum 600); ("height", JNum 300)]). reflexivity.
  - apply (composite_export_scale [("width", JNum 200); ("height", JNum 100)]). discriminate.
Defined.

(** ** Node serializer *)

(** Induction over nodes with a hypothesis for every child. *)
Section FnodeInd.
Variable P : fnode -> Prop.
Hypothesis P_node : forall props kids,
  match kids with Some ks => Forall P ks | None => True end -> P (FNode props kids).
Hypothesis P_removed : P FRemoved.

Fixpoint fnode_ind' (n : fnode) : P n :=
  match n with
  | FRemoved => P_removed
  | FNode props kids =>
    P_node props kids
      (match kids as o return match o with Some ks => Forall P ks | None => True end with
       | None => I
       | Some ks =>
         (fix go (ks : list fnode) : Forall P ks :=
            match ks with
            | [] => Forall_nil P
            | k :: ks' => Forall_cons k (fnode_ind' k) (go ks')
            end) ks
       end)
  end.
End FnodeInd.

Lemma keep_ok_in {A B} (f : A -> option B) (xs : list A) (y : B) :
  In y (keep_ok f xs) -> exists x, In x xs /\ f x = Some y.
Proof.
  induction xs as [|x xs IH]; cbn; [contradiction |].
  destruct (f x) as [y'|] eqn:E.
  - intros [<-|H]; [exists x; auto |].
    destruct (IH H) as [x' [Hx' Hf]]. exists x'. auto.
  - intro H. destruct (IH H) as [x' [Hx' Hf]]. exists x'. auto.
Qed.

Lemma extractDesignNode_fields (props : list (string * jsval)) (kids : option (list fnode))
    (depth : nat) (s : snode) :
  extractDesignNode (FNode props kids) depth = Some s ->
  (sn_cornerRadius s, sn_topLeftRadius s, sn_topRightRadius s, sn_bottomRightRadius s,
   sn_bottomLeftRadius s) = corner_fields props /\
  sn_children s =
    if Nat.ltb depth MAX_TREE_DEPTH then
      match kids with
      | Some ks => Some (keep_ok (fun k => extractDesignNode k (S depth)) ks)
      | None => None
      end
    else None.
Proof.
  cbn [extractDesignNode].
  destruct (map_throw extractPaint (list_of (safeArr (safe (prop props "fills") JUndefined))));
    [| discriminate].
  destruct (map_throw extractPaint (list_of (safeArr (safe (prop props "strokes") JUndefined))));
    [| discriminate].
  destruct (corner_fields props) as [[[[cr tl] tr] br] bl].
  intro H. injection H as <-. split; reflexivity.
Qed.

Lemma extractDesignNode_children (props : list (string * jsval)) (kids : option (list fnode))
    (depth : nat) (s : snode) :
  extractDesignNode (FNode props kids) depth = Some s ->
  sn_children s =
    if Nat.ltb depth MAX_TREE_DEPTH then
      match kids with
      | Some ks => Some (keep_ok (fun k => extractDesignNode k (S depth)) ks)
      | None => None
      end
    else None.
Proof. intro H. exact (proj2 (extractDesignNode_fields props kids depth s H)). Qed.

(** A live node throws exactly when one of its paints does: neither the
    depth nor the children play a part. *)
Lemma extractDesignNode_none (props : list (string * jsval)) (kids : option (list fnode))
    (depth : nat) :
  extractDesignNode (FNode props kids) depth = None <-> paints_throw props = true.
Proof.
  unfold paints_throw. cbn [extractDesignNode].
  destruct (map_throw extractPaint (list_of (safeArr (safe (prop props "fills") JUndefined))));
    [| split; reflexivity].
  destruct (map_throw extractPaint (list_of (safeArr (safe (prop props "strokes") JUndefined))));
    [| split; reflexivity].
  destruct (corner_fields props) as [[[[cr tl] tr] br] bl].
  split; discriminate.
Qed.

Lemma nodes_at_depth_bound : forall (node : fnode) (d : nat) (s : snode),
  extractDesignNode node d = Some s ->
  forall k t, In (k, t) (nodes_at d s) ->
    (d <= k /\ k <= Nat.max d MAX_TREE_DEPTH /\
     (MAX_TREE_DEPTH <= k -> sn_children t = None))%nat.
Proof.
  induction node as [props kids IH|] using fnode_ind'; intros d s Hs k t Hin;
    [| discriminate].
  pose proof (extractDesignNode_children props kids d s Hs) as Hc.
  destruct s as [i n ty v w h fl st ef cr tl tr br bl ch]; cbn [sn_children] in Hc |- *. subst ch.
  cbn [nodes_at sn_children In] in Hin. destruct Hin as [Heq | Hin].
  - injection Heq as <- <-. cbn [sn_children].
    split; [lia | split; [lia |]]. intro Hle.
    destruct (Nat.ltb d MAX_TREE_DEPTH) eqn:E; [apply Nat.ltb_lt in E; lia | reflexivity].
  - destruct (Nat.ltb d MAX_TREE_DEPTH) eqn:E; [| contradiction].
    apply Nat.ltb_lt in E.
    destruct kids as [ks|]; [| contradiction].
    apply in_flat_map in Hin. destruct Hin as [c [Hc Hin]].
    apply keep_ok_in in Hc. destruct Hc as [k0 [Hk0 Hext]].
    rewrite Forall_forall in IH.
    destruct (IH k0 Hk0 (S d) c Hext k t Hin) as [H1 [H2 H3]].
    split; [lia | split; [lia | exact H3]].
Qed.

(** C3. In the snapshot serialized from any node at any starting depth
    [d], every serialized node lies at a depth at most
    [max d MAX_TREE_DEPTH], and a serialized node at depth
    [MAX_TREE_DEPTH] has no [children] field.  The truncation is not an
    error: whether a live node is serialized or throws depends only on its
    own paints (the [extractPaint] calls over [fills] and [strokes]), never
    on its depth or its children, and a node serialized at or past the
    bound has no [children] field. *)
Theorem extractDesignNode_depth_bounded :
  (forall (node : fnode) (d : nat) (s : snode),
     extractDesignNode node d = Some s ->
     forall k t, In (k, t) (nodes_at d s) ->
       (k <= Nat.max d MAX_TREE_DEPTH /\ (k = MAX_TREE_DEPTH -> sn_children t = None))%nat) /\
  (forall props kids (d : nat),
     (extractDesignNode (FNode props kids) d = None <-> paints_throw props = true) /\
     ((MAX_TREE_DEPTH <= d)%nat -> forall s,
        extractDesignNode (FNode props kids) d = Some s -> sn_children s = None)).
Proof.
  split.
  - intros node d s Hs k t Hin.
    destruct (nodes_at_depth_bound node d s Hs k t Hin) as [_ [H1 H2]].
    split; [exact H1 | intro Hk; apply H2; lia].
  - intros props kids d. split; [apply extractDesignNode_none |].
    intros Hd s Hs. rewrite (extractDesignNode_children props kids d s Hs).
    destruct (Nat.ltb d MAX_TREE_DEPTH) eqn:E; [apply Nat.ltb_lt in E; lia | reflexivity].
Qed.

(** A chain of [n + 1] nested frames. *)
Fixpoint chain (n : nat) : fnode :=
  match n with
  | O => FNode [("id", JStr "leaf"); ("type", JStr "RECTANGLE")] None
  | S n' => FNode [("id", JStr "frame"); ("type", JStr "FRAME")] (Some [chain n'])
  end.

(** A frame filled with a linear gradient one of whose stops is [null]. *)
Definition broken_gradient_frame : list (string * jsval) :=
  [("type", JStr "FRAME");
   ("fills", JArr [JObj [("type", JStr "GRADIENT_LINEAR"); ("gradientStops", JArr [JNull])]])].

Lemma extractDesignNode_depth_bounded_witness :
  match extractDesignNode (FNode [("type", JStr "FRAME")] (Some [chain 2])) 15 with
  | Some s => sn_children s = None
  | None => False
  end /\
  extractDesignNode (FNode broken_gradient_frame (Some [chain 2])) 15 = None /\
  match extractDesignNode (chain 20) 0 with
  | Some s => forall t, In (15%nat, t) (nodes_at 0 s) -> sn_children t = None
  | None => False
  end.
Proof.
  split; [| split].
  - destruct (extractDesignNode (FNode [("type", JStr "FRAME")] (Some [chain 2])) 15)
      as [s|] eqn:E; [| discriminate].
    apply (proj2 (proj2 extractDesignNode_depth_bounded _ _ 15%nat) ltac:(unfold MAX_TREE_DEPTH; lia) s E).
  - apply (proj1 (proj2 extractDesignNode_depth_bounded _ _ 15%nat)). reflexivity.
  - destruct (extractDesignNode (chain 20) 0) as [s|] eqn:E; [| discriminate].
    intros t Ht.
    apply (proj1 extractDesignNode_depth_bounded (chain 20) 0%nat s E 15%nat t Ht). reflexivity.
Defined.

Example chain_depth_15_present :
  match extractDesignNode (chain 20) 0 with
  | Some s => List.length (filter (fun p => Nat.eqb (fst p) 15) (nodes_at 0 s)) = 1%nat
  | None => False
  end.
Proof. vm_compute. reflexivity. Qed.

(** The uniform and the per-corner forms are never both present. *)
Lemma corner_forms_exclusive : forall (node : fnode) (d : nat) (s : snode),
  extractDesignNode node d = Some s ->
  sn_cornerRadius s = None \/
  (sn_topLeftRadius s = None /\ sn_topRightRadius s = None /\
   sn_bottomRightRadius s = None /\ sn_bottomLeftRadius s = None).
Proof.
  intros [props kids|] d s H; [| discriminate].
  destruct (extractDesignNode_fields props kids d s H) as [Hc _].
  destruct s; cbn in Hc |- *. unfold corner_fields in Hc.
  destruct (negb (is_null (safe (prop props "cornerRadius") JUndefined)));
    [destruct (String.eqb (typeof (safe (prop props "cornerRadius") JUndefined)) "number") |];
    injection Hc as -> -> -> -> ->; auto 6.
Qed.

(** Node [2:9] of a multi-radius rectangle: Figma reports [cornerRadius]
    as [figma.mixed] and the four corners separately. *)
Definition mixed_radius_rect : fnode :=
  FNode [("id", JStr "2:9"); ("type", JStr "RECTANGLE"); ("cornerRadius", mixed);
         ("topLeftRadius", JNum 8); ("topRightRadius", JNum 8);
         ("bottomRightRadius", JNum 0); ("bottomLeftRadius", JNum 0)] None.

(** C4 (at the failing input). A node whose [cornerRadius] is the mixed
    sentinel, with per-corner radii 8, 8, 0, 0, is serialized with neither
    the uniform field nor any of the four per-corner fields: [safe] has
    already turned the sentinel into [null], so the per-corner branch is
    never reached. *)
Theorem cornerRadius_mixed_drops_both_forms :
  exists s, extractDesignNode mixed_radius_rect 0 = Some s /\
    sn_cornerRadius s = None /\ sn_topLeftRadius s = None /\ sn_topRightRadius s = None /\
    sn_bottomRightRadius s = None /\ sn_bottomLeftRadius s = None.
Proof. eexists. split; [reflexivity |]. cbn. auto 6. Qed.

(** ** Asset collector *)

(** C6. A live node whose [visible] normalizes to [false] returns at once:
    whatever its children, the depth and the accumulator, the accumulator
    comes back unchanged and nothing is thrown, so the node contributes no
    asset and none of its descendants is visited. *)
Theorem collectImageAssets_prunes_invisible :
  forall (props : list (string * jsval)) (kids : option (list fnode))
         (depth : nat) (c : collected),
  safeBool (prop props "visible") (JBool true) = JBool false ->
  collectImageAssets (FNode props kids) depth c = (c, Returned).
Proof.
  intros props kids depth c H. cbn [collectImageAssets].
  destruct (Nat.ltb MAX_IMAGE_SCAN_DEPTH depth); [reflexivity |].
  destruct (Nat.leb (MAX_IMAGE_ASSETS + MAX_VECTOR_ASSETS + MAX_COMPOSITE_ASSETS)
                    (totalCount c)); [reflexivity |].
  rewrite H. reflexivity.
Qed.

Definition image_fill (hash : string) : jsval :=
  JObj [("type", JStr "IMAGE"); ("imageHash", JStr hash); ("scaleMode", JStr "FILL")].

(** A hidden instance holding a photo and a vector icon. *)
Definition hidden_card : fnode :=
  FNode [("id", JStr "4:1"); ("type", JStr "INSTANCE"); ("visible", JBool false);
         ("fills", JArr [image_fill "h9"])]
        (Some [FNode [("id", JStr "4:2"); ("type", JStr "VECTOR");
                      ("width", JNum 16); ("height", JNum 16)] None]).

Lemma collectImageAssets_prunes_invisible_witness :
  collectImageAssets hidden_card 1 empty_collected = (empty_collected, Returned).
Proof. apply collectImageAssets_prunes_invisible. reflexivity. Defined.

Lemma obj_set_keys {A} (k : string) (v : A) (m : list (string * A)) (x : string) :
  In x (map fst (obj_set k v m)) -> x = k \/ In x (map fst m).
Proof.
  induction m as [|[k' v'] m IH]; cbn.
  - intros [<-|[]]. auto.
  - destruct (String.eqb k k') eqn:E; cbn.
    + apply String.eqb_eq in E. subst k'. intros [<-|H]; auto.
    + intros [<-|H]; [auto |]. destruct (IH H); auto.
Qed.

Lemma obj_set_nodup {A} (k : string) (v : A) (m : list (string * A)) :
  NoDup (map fst m) -> NoDup (map fst (obj_set k v m)).
Proof.
  induction m as [|[k' v'] m IH]; cbn; intro H.
  - constructor; [intros [] | constructor].
  - inversion H as [|? ? Hn Hd]; subst.
    destruct (String.eqb k k') eqn:E; cbn.
    + apply String.eqb_eq in E. subst k'. constructor; assumption.
    + apply String.eqb_neq in E. constructor; [| apply IH; assumption].
      intro Hin. destruct (obj_set_keys k v m k' Hin); [congruence | contradiction].
Qed.

Definition hashes_nodup (c : collected) : Prop := NoDup (map fst (imageHashes c)).

Lemma collect_fill_nodup props c f : hashes_nodup c -> hashes_nodup (collect_fill props c f).
Proof.
  unfold hashes_nodup, collect_fill. intro H.
  destruct (is_image_fill f); [| exact H].
  destruct (_ && _); [cbn; apply obj_set_nodup; exact H | exact H].
Qed.

Lemma collect_fills_nodup props fills c :
  hashes_nodup c -> hashes_nodup (fold_left (collect_fill props) fills c).
Proof.
  revert c. induction fills as [|f fills IH]; cbn; intros c H; [exact H |].
  apply IH. apply collect_fill_nodup. exact H.
Qed.

Lemma collect_vector_hashes node props c : imageHashes (collect_vector node props c) = imageHashes c.
Proof. unfold collect_vector. destruct (_ && _); reflexivity. Qed.

Lemma collect_composite_hashes node props depth c c' :
  collect_composite node props depth c = Some c' -> imageHashes c' = imageHashes c.
Proof.
  unfold collect_composite. destruct (_ && _ && _).
  - destruct (subtreeHasImage node 0) as [b|]; [| discriminate].
    destruct (_ && _); intro H; injection H as <-; reflexivity.
  - intro H; injection H as <-; reflexivity.
Qed.

Lemma collectImageAssets_nodup : forall (node : fnode) (depth : nat) (c : collected),
  hashes_nodup c -> hashes_nodup (fst (collectImageAssets node depth c)).
Proof.
  induction node as [props kids IH|] using fnode_ind'; intros depth c H;
    cbn [collectImageAssets].
  - destruct (Nat.ltb MAX_IMAGE_SCAN_DEPTH depth); [exact H |].
    destruct (Nat.leb _ (totalCount c)); [exact H |].
    destruct (strict_eq _ _); [exact H |].
    pose proof (collect_fills_nodup props
                  (list_of (safeArr (safe (prop props "fills") JUndefined))) c H) as H1.
    set (c1 := fold_left _ _ c) in *.
    assert (H2 : hashes_nodup (collect_vector (FNode props kids) props c1)).
    { unfold hashes_nodup. rewrite collect_vector_hashes. exact H1. }
    destruct (collect_composite _ _ _ _) as [c3|] eqn:E3; [| exact H2].
    assert (H3 : hashes_nodup c3).
    { unfold hashes_nodup. erewrite collect_composite_hashes by exact E3. exact H2. }
    destruct kids as [ks|]; [| exact H3]. cbn [fst].
    clear E3 H2 H1 c1. revert c3 H3.
    induction IH as [|k ks Hk Hks IHks]; cbn; intros c3 H3; [exact H3 |].
    apply IHks. apply Hk. exact H3.
  - destruct (Nat.ltb MAX_IMAGE_SCAN_DEPTH depth); [exact H |].
    destruct (Nat.leb _ (totalCount c)); exact H.
Qed.

Lemma nodup_image_fill_export_ids ok c :
  hashes_nodup c -> NoDup (image_fill_export_ids ok c).
Proof.
  unfold hashes_nodup, image_fill_export_ids. intro H.
  apply NoDup_filter.
  rewrite <- (firstn_skipn MAX_IMAGE_ASSETS (map fst (imageHashes c))) in H.
  apply NoDup_app_remove_r in H. exact H.
Qed.

(** Two image fills with the same hash on one rectangle. *)
Definition twin_fill_rect : fnode :=
  FNode [("id", JStr "5:3"); ("type", JStr "RECTANGLE"); ("width", JNum 100);
         ("height", JNum 50); ("fills", JArr [image_fill "h1"; image_fill "h1"])] None.

(** C5. In a walk (started, as [sendCurrentSelection] does, from the empty
    accumulator, at any node and depth) every image hash is recorded at
    most once and yields at most one exported image-fill asset with that id,
    whatever the fills and nodes carrying it; a node with two fills of the
    same hash yields exactly one entry, also when a sibling repeats it. *)
Theorem collect_image_hash_at_most_once :
  (forall (node : fnode) (depth : nat) (h : string) (ok : string -> bool),
     let c := fst (collectImageAssets node depth empty_collected) in
     (count_occ String.string_dec (map fst (imageHashes c)) h <= 1)%nat /\
     (count_occ String.string_dec (image_fill_export_ids ok c) h <= 1)%nat) /\
  map fst (imageHashes (fst (collectImageAssets twin_fill_rect 0 empty_collected))) = ["h1"] /\
  map fst (imageHashes (fst (collectImageAssets
             (FNode [("id", JStr "5:1"); ("type", JStr "FRAME")]
                    (Some [twin_fill_rect; twin_fill_rect])) 0 empty_collected))) = ["h1"].
Proof.
  split; [| split; vm_compute; reflexivity].
  intros node depth h ok c.
  assert (H : hashes_nodup c) by (apply collectImageAssets_nodup; constructor).
  split.
  - apply NoDup_count_occ. exact H.
  - apply NoDup_count_occ. apply nodup_image_fill_export_ids. exact H.
Qed.

(** ** Base64 encoding *)

Open Scope nat_scope.

Example uint8ToBase64_Man : uint8ToBase64 [77; 97; 110]%Z = "TWFu".
Proof. reflexivity. Qed.

Example uint8ToBase64_Ma : uint8ToBase64 [77; 97]%Z = "TWE=".
Proof. reflexivity. Qed.

Example uint8ToBase64_M : uint8ToBase64 [77]%Z = "TQ==".
Proof. reflexivity. Qed.

Example base64_decode_Man : base64_decode "TWFuTQ==" = [77; 97; 110; 77]%Z.
Proof. reflexivity. Qed.

Definition enc3 (a b c : Z) : string :=
  char_at (Z.shiftr a 2) ++ char_at (Z.lor (Z.shiftl (Z.land a 3) 4) (Z.shiftr b 4)) ++
  char_at (Z.lor (Z.shiftl (Z.land b 15) 2) (Z.shiftr c 6)) ++ char_at (Z.land c 63).

Definition enc2 (a b : Z) : string :=
  char_at (Z.shiftr a 2) ++ char_at (Z.lor (Z.shiftl (Z.land a 3) 4) (Z.shiftr b 4)) ++
  char_at (Z.lor (Z.shiftl (Z.land b 15) 2) (Z.shiftr 0 6)) ++ "=".

Definition enc1 (a : Z) : string :=
  char_at (Z.shiftr a 2) ++ char_at (Z.lor (Z.shiftl (Z.land a 3) 4) (Z.shiftr 0 4)) ++
  "=" ++ "=".

Lemma append_empty_r (s : string) : (s ++ "")%string = s.
Proof. induction s as [|c s IH]; cbn; [reflexivity | rewrite IH; reflexivity]. Qed.

Lemma concat_empty_cons (x : string) (xs : list string) :
  String.concat "" (x :: xs) = (x ++ String.concat "" xs)%string.
Proof. destruct xs; cbn; [rewrite append_empty_r |]; reflexivity. Qed.

Lemma enc_group_shift (a b c : Z) (rest : list Z) (k : nat) :
  enc_group (a :: b :: c :: rest) (List.length rest + 3) (3 * S k) =
  enc_group rest (List.length rest) (3 * k).
Proof.
  replace (3 * S k) with (S (S (S (3 * k)))) by lia.
  replace (List.length rest + 3) with (S (S (S (List.length rest)))) by lia.
  reflexivity.
Qed.

Lemma seq_S0 (m : nat) : seq 0 (S m) = 0 :: map S (seq 0 m).
Proof. cbn. rewrite seq_shift. reflexivity. Qed.

Lemma uint8ToBase64_cons3 (a b c : Z) (rest : list Z) :
  uint8ToBase64 (a :: b :: c :: rest) = (enc3 a b c ++ uint8ToBase64 rest)%string.
Proof.
  unfold uint8ToBase64.
  replace (List.length (a :: b :: c :: rest) + 2) with ((List.length rest + 2) + 1 * 3) by
    (cbn; lia).
  rewrite Nat.div_add by lia. rewrite Nat.add_1_r.
  rewrite seq_S0, map_cons, map_map, concat_empty_cons.
  apply f_equal2; [reflexivity |].
  apply f_equal. apply map_ext. intro k.
  replace (List.length (a :: b :: c :: rest)) with (List.length rest + 3) by (cbn; lia).
  apply enc_group_shift.
Qed.

Lemma uint8ToBase64_two (a b : Z) : uint8ToBase64 [a; b] = enc2 a b.
Proof. reflexivity. Qed.

Lemma uint8ToBase64_one (a : Z) : uint8ToBase64 [a] = enc1 a.
Proof. reflexivity. Qed.

Lemma uint8ToBase64_nil : uint8ToBase64 [] = "".
Proof. reflexivity. Qed.

(** The 64 alphabet characters: each is one character, read back as its
    index by the decoder, and differs from the padding character. *)
Lemma CHARS_table : forall n : nat, (n < 64)%nat ->
  exists ch, String.get n CHARS = Some ch /\
             b64_value ch = Z.of_nat n /\ Ascii.eqb ch "=" = false.
Proof.
  intros n Hn.
  do 64 (destruct n as [|n]; [eexists; split; [reflexivity | split; reflexivity] |]).
  lia.
Qed.

Lemma char_at_spec (idx : Z) : (0 <= idx < 64)%Z ->
  exists ch, char_at idx = String ch EmptyString /\ b64_value ch = idx /\
             Ascii.eqb ch "=" = false.
Proof.
  intro H. unfold char_at.
  destruct (Z.ltb_spec idx 0); [lia |].
  destruct (CHARS_table (Z.to_nat idx)) as [ch [Hg [Hv He]]]; [lia |].
  rewrite Hg. exists ch. split; [reflexivity | split; [| exact He]].
  rewrite Hv. apply Z2Nat.id. lia.
Qed.

Lemma lor_shiftl4 (x y : Z) : (0 <= x < 4)%Z -> (0 <= y < 16)%Z ->
  Z.lor (Z.shiftl x 4) y = (x * 16 + y)%Z.
Proof.
  intros Hx Hy.
  assert (x = 0 \/ x = 1 \/ x = 2 \/ x = 3)%Z as Ex by lia.
  assert (y = 0 \/ y = 1 \/ y = 2 \/ y = 3 \/ y = 4 \/ y = 5 \/ y = 6 \/ y = 7 \/
          y = 8 \/ y = 9 \/ y = 10 \/ y = 11 \/ y = 12 \/ y = 13 \/ y = 14 \/ y = 15)%Z
    as Ey by lia.
  repeat (destruct Ex as [->|Ex]); try (subst x);
    repeat (destruct Ey as [->|Ey]); try (subst y); reflexivity.
Qed.

Lemma lor_shiftl2 (x y : Z) : (0 <= x < 16)%Z -> (0 <= y < 4)%Z ->
  Z.lor (Z.shiftl x 2) y = (x * 4 + y)%Z.
Proof.
  intros Hx Hy.
  assert (y = 0 \/ y = 1 \/ y = 2 \/ y = 3)%Z as Ey by lia.
  assert (x = 0 \/ x = 1 \/ x = 2 \/ x = 3 \/ x = 4 \/ x = 5 \/ x = 6 \/ x = 7 \/
          x = 8 \/ x = 9 \/ x = 10 \/ x = 11 \/ x = 12 \/ x = 13 \/ x = 14 \/ x = 15)%Z
    as Ex by lia.
  repeat (destruct Ex as [->|Ex]); try (subst x);
    repeat (destruct Ey as [->|Ey]); try (subst y); reflexivity.
Qed.

Lemma shiftr_div (a : Z) (n : Z) : (0 <= n)%Z -> Z.shiftr a n = (a / 2 ^ n)%Z.
Proof. intro H. apply Z.shiftr_div_pow2. exact H. Qed.

Lemma land_mod (a : Z) (n : Z) : (0 <= n)%Z -> Z.land a (Z.ones n) = (a mod 2 ^ n)%Z.
Proof. intro H. apply Z.land_ones. exact H. Qed.

Definition is_byte (b : Z) : Prop := (0 <= b < 256)%Z.

(** The four alphabet indices of a group, in arithmetic form. *)
Lemma enc_indices (a b c : Z) : is_byte a -> is_byte b -> is_byte c ->
  Z.shiftr a 2 = (a / 4)%Z /\
  Z.lor (Z.shiftl (Z.land a 3) 4) (Z.shiftr b 4) = ((a mod 4) * 16 + b / 16)%Z /\
  Z.lor (Z.shiftl (Z.land b 15) 2) (Z.shiftr c 6) = ((b mod 16) * 4 + c / 64)%Z /\
  Z.land c 63 = (c mod 64)%Z.
Proof.
  unfold is_byte. intros Ha Hb Hc.
  change 3%Z with (Z.ones 2). change 15%Z with (Z.ones 4). change 63%Z with (Z.ones 6).
  rewrite !land_mod, !shiftr_div by lia.
  change (2 ^ 2)%Z with 4%Z. change (2 ^ 4)%Z with 16%Z. change (2 ^ 6)%Z with 64%Z.
  split; [reflexivity |].
  split; [apply lor_shiftl4 | split; [apply lor_shiftl2 | reflexivity]];
    (split; [apply Z.mod_pos_bound; lia | apply Z.mod_pos_bound; lia]) ||
    (split; [apply Z.div_pos; lia | apply Z.div_lt_upper_bound; lia]).
Qed.

Section ChunkInd.
Variable P : list Z -> Prop.
Hypothesis P_nil : P [].
Hypothesis P_one : forall a, P [a].
Hypothesis P_two : forall a b, P [a; b].
Hypothesis P_three : forall a b c r, P r -> P (a :: b :: c :: r).

Fixpoint chunk_ind (l : list Z) : P l :=
  match l with
  | [] => P_nil
  | [a] => P_one a
  | [a; b] => P_two a b
  | a :: b :: c :: r => P_three a b c r (chunk_ind r)
  end.
End ChunkInd.

Lemma get_in (s : string) (n : nat) (ch : ascii) :
  String.get n s = Some ch -> In ch (list_ascii_of_string s).
Proof.
  revert n. induction s as [|c s IH]; intros n H; [destruct n; discriminate |].
  destruct n as [|n]; cbn in H |- *.
  - injection H as <-. left. reflexivity.
  - right. apply (IH n H).
Qed.

Lemma char_at_in (idx : Z) : (0 <= idx < 64)%Z ->
  exists ch, char_at idx = String ch EmptyString /\ In ch (list_ascii_of_string CHARS).
Proof.
  intro H. unfold char_at.
  destruct (Z.ltb_spec idx 0); [lia |].
  destruct (CHARS_table (Z.to_nat idx)) as [ch [Hg _]]; [lia |].
  rewrite Hg. exists ch. split; [reflexivity | apply (get_in _ _ _ Hg)].
Qed.

Lemma enc_index_bounds (a b c : Z) : is_byte a -> is_byte b -> is_byte c ->
  (0 <= a / 4 < 64)%Z /\ (0 <= (a mod 4) * 16 + b / 16 < 64)%Z /\
  (0 <= (b mod 16) * 4 + c / 64 < 64)%Z /\ (0 <= c mod 64 < 64)%Z.
Proof. unfold is_byte. intros Ha Hb Hc. repeat split; Z.div_mod_to_equations; lia. Qed.

(** The characters of base64 text: alphabet or padding. *)
Definition b64_text (s : string) : Prop :=
  forall ch, In ch (list_ascii_of_string s) -> In ch (list_ascii_of_string CHARS) \/ ch = "="%char.

Lemma b64_text_app (s1 s2 : string) : b64_text s1 -> b64_text s2 -> b64_text (s1 ++ s2).
Proof.
  unfold b64_text. induction s1 as [|c s1 IH]; cbn; intros H1 H2 ch Hin; [auto |].
  destruct Hin as [<-|Hin]; [apply H1; left; reflexivity |].
  apply IH; [intros ch' Hc; apply H1; right; exact Hc | exact H2 | exact Hin].
Qed.

Lemma b64_text_char (idx : Z) : (0 <= idx < 64)%Z -> b64_text (char_at idx).
Proof.
  intro H. destruct (char_at_in idx H) as [ch [-> Hin]].
  intros ch' [<-|[]]. left. exact Hin.
Qed.

Lemma b64_text_pad : b64_text "=".
Proof. intros ch [<-|[]]. right. reflexivity. Qed.

Lemma length_char_at (idx : Z) : (0 <= idx < 64)%Z -> String.length (char_at idx) = 1.
Proof. intro H. destruct (char_at_in idx H) as [ch [-> _]]. reflexivity. Qed.

Lemma length_append (s1 s2 : string) :
  String.length (s1 ++ s2) = String.length s1 + String.length s2.
Proof. induction s1 as [|c s1 IH]; cbn; [reflexivity | rewrite IH; reflexivity]. Qed.

(** X1. For every array of bytes (values 0..255), [uint8ToBase64] produces
    [4 * ceil(n / 3)] characters, all from the base64 alphabet or the
    padding character '='. *)
Theorem uint8ToBase64_shape : forall u8 : list Z, Forall is_byte u8 ->
  String.length (uint8ToBase64 u8) = 4 * ((List.length u8 + 2) / 3) /\
  b64_text (uint8ToBase64 u8).
Proof.
  induction u8 as [|a|a b|a b c r IH] using chunk_ind; intro Hb.
  - split; [reflexivity | intros ch []].
  - inversion Hb as [|? ? Ha _]; subst.
    destruct (enc_indices a 0 0) as [E0 [E1 _]]; try (unfold is_byte; lia); [exact Ha |].
    destruct (enc_index_bounds a 0 0) as [B0 [B1 _]]; try (unfold is_byte; lia); [exact Ha |].
    rewrite uint8ToBase64_one. unfold enc1. rewrite E0, E1.
    split.
    + rewrite !length_append, !length_char_at by assumption. reflexivity.
    + repeat apply b64_text_app; auto using b64_text_char, b64_text_pad.
  - inversion Hb as [|? ? Ha Hb']; subst. inversion Hb' as [|? ? Hb2 _]; subst.
    destruct (enc_indices a b 0) as [E0 [E1 [E2 _]]]; try (unfold is_byte; lia);
      try assumption.
    destruct (enc_index_bounds a b 0) as [B0 [B1 [B2 _]]]; try (unfold is_byte; lia);
      try assumption.
    rewrite uint8ToBase64_two. unfold enc2. rewrite E0, E1, E2.
    split.
    + rewrite !length_append, !length_char_at by assumption. reflexivity.
    + repeat apply b64_text_app; auto using b64_text_char, b64_text_pad.
  - inversion Hb as [|? ? Ha Hb1]; subst. inversion Hb1 as [|? ? Hb2 Hb3]; subst.
    inversion Hb3 as [|? ? Hc Hr]; subst.
    destruct (IH Hr) as [IHl IHt].
    destruct (enc_indices a b c Ha Hb2 Hc) as [E0 [E1 [E2 E3]]].
    destruct (enc_index_bounds a b c Ha Hb2 Hc) as [B0 [B1 [B2 B3]]].
    rewrite uint8ToBase64_cons3. unfold enc3. rewrite E0, E1, E2, E3.
    split.
    + rewrite !length_append, !length_char_at by assumption. rewrite IHl.
      cbn [List.length].
      replace (S (S (S (List.length r))) + 2) with ((List.length r + 2) + 1 * 3) by lia.
      rewrite Nat.div_add by lia. lia.
    + repeat apply b64_text_app; auto using b64_text_char.
Qed.

Lemma uint8ToBase64_shape_witness :
  String.length (uint8ToBase64 [0; 255; 7; 128]%Z) = 8 /\
  b64_text (uint8ToBase64 [0; 255; 7; 128]%Z).
Proof.
  apply (uint8ToBase64_shape [0; 255; 7; 128]%Z).
  repeat constructor; unfold is_byte; lia.
Defined.

(** X2. Round trip: for every array of bytes, decoding the text produced by
    [uint8ToBase64] with the standard base64 decoder (the one the relay
    applies, [Buffer.from(data, 'base64')]) gives back the same bytes. *)
Theorem uint8ToBase64_roundtrip : forall u8 : list Z, Forall is_byte u8 ->
  base64_decode (uint8ToBase64 u8) = u8.
Proof.
  induction u8 as [|a|a b|a b c r IH] using chunk_ind; intro Hb.
  - reflexivity.
  - inversion Hb as [|? ? Ha _]; subst.
    assert (Hz : is_byte 0%Z) by (unfold is_byte; lia).
    destruct (enc_indices a 0 0 Ha Hz Hz) as [E0 [E1 _]].
    destruct (enc_index_bounds a 0 0 Ha Hz Hz) as [B0 [B1 _]].
    rewrite uint8ToBase64_one. unfold enc1. rewrite E0, E1.
    destruct (char_at_spec _ B0) as [c0 [F0 [V0 _]]].
    destruct (char_at_spec _ B1) as [c1 [F1 [V1 _]]].
    rewrite F0, F1. cbn [append base64_decode].
    rewrite V0, V1. cbn -[Z.div Z.modulo Z.mul Z.add].
    unfold is_byte in Ha. f_equal. Z.div_mod_to_equations. lia.
  - inversion Hb as [|? ? Ha Hb']; subst. inversion Hb' as [|? ? Hb2 _]; subst.
    assert (Hz : is_byte 0%Z) by (unfold is_byte; lia).
    destruct (enc_indices a b 0 Ha Hb2 Hz) as [E0 [E1 [E2 _]]].
    destruct (enc_index_bounds a b 0 Ha Hb2 Hz) as [B0 [B1 [B2 _]]].
    rewrite uint8ToBase64_two. unfold enc2. rewrite E0, E1, E2.
    destruct (char_at_spec _ B0) as [c0 [F0 [V0 _]]].
    destruct (char_at_spec _ B1) as [c1 [F1 [V1 _]]].
    destruct (char_at_spec _ B2) as [c2 [F2 [V2 G2]]].
    rewrite F0, F1, F2. cbn [append base64_decode].
    rewrite G2, V0, V1, V2. cbn -[Z.div Z.modulo Z.mul Z.add].
    unfold is_byte in Ha, Hb2. f_equal; [| f_equal]; Z.div_mod_to_equations; lia.
  - inversion Hb as [|? ? Ha Hb1]; subst. inversion Hb1 as [|? ? Hb2 Hb3]; subst.
    inversion Hb3 as [|? ? Hc Hr]; subst.
    destruct (enc_indices a b c Ha Hb2 Hc) as [E0 [E1 [E2 E3]]].
    destruct (enc_index_bounds a b c Ha Hb2 Hc) as [B0 [B1 [B2 B3]]].
    rewrite uint8ToBase64_cons3. unfold enc3. rewrite E0, E1, E2, E3.
    destruct (char_at_spec _ B0) as [c0 [F0 [V0 _]]].
    destruct (char_at_spec _ B1) as [c1 [F1 [V1 _]]].
    destruct (char_at_spec _ B2) as [c2 [F2 [V2 G2]]].
    destruct (char_at_spec _ B3) as [c3 [F3 [V3 G3]]].
    rewrite F0, F1, F2, F3. cbn [append base64_decode].
    rewrite G2, G3, V0, V1, V2, V3, (IH Hr).
    unfold is_byte in Ha, Hb2, Hc.
    f_equal; [| f_equal; [| f_equal]]; Z.div_mod_to_equations; lia.
Qed.

Lemma uint8ToBase64_roundtrip_witness :
  base64_decode (uint8ToBase64 [0; 255; 7; 128]%Z) = [0; 255; 7; 128]%Z.
Proof.
  apply uint8ToBase64_roundtrip. repeat constructor; unfold is_byte; lia.
Defined.

(** ** Relay asset storage *)

(** The characters [sanitize] lets through: [a-zA-Z0-9_-]. *)
Definition filename_char (c : ascii) : bool :=
  existsb (Ascii.eqb c)
    (list_ascii_of_string "ABCDEFGHIJKLMNOPQRSTUVWXYZabcdefghijklmnopqrstuvwxyz0123456789_-").

Lemma sanitize_char_spec (c : ascii) :
  filename_char (sanitize_char c) = true /\ (filename_char c = true -> sanitize_char c = c).
Proof.
  destruct c as [[|] [|] [|] [|] [|] [|] [|] [|]];
    split; try reflexivity; intro H; first [reflexivity | discriminate H].
Qed.

(** X3. [sanitize] keeps the length of an id, every character it returns
    is one of [a-zA-Z0-9_-], an id made of those characters only is
    returned unchanged, and so sanitizing twice is sanitizing once. *)
Theorem sanitize_props : forall s : string,
  String.length (sanitize s) = String.length s /\
  (forall c, In c (list_ascii_of_string (sanitize s)) -> filename_char c = true) /\
  ((forall c, In c (list_ascii_of_string s) -> filename_char c = true) -> sanitize s = s) /\
  sanitize (sanitize s) = sanitize s.
Proof.
  induction s as [|c s [IHl [IHc [IHk IHi]]]]; cbn.
  - split; [reflexivity | split; [intros c [] | split; reflexivity]].
  - destruct (sanitize_char_spec c) as [Hs Hk].
    repeat split.
    + rewrite IHl. reflexivity.
    + intros c' [<-|Hin]; [exact Hs | exact (IHc c' Hin)].
    + intro H. rewrite Hk, IHk; [reflexivity | |].
      * intros c' Hin. apply H. right. exact Hin.
      * apply H. left. reflexivity.
    + rewrite IHi. rewrite (proj2 (sanitize_char_spec _) Hs). reflexivity.
Qed.

(** The last element of [l] whose key is [k]. *)
Definition last_by {X} (key : X -> string) (k : string) (l : list X) : option X :=
  fold_left (fun acc x => if String.eqb (key x) k then Some x else acc) l None.

Lemma last_by_snoc {X} (key : X -> string) (k : string) (l : list X) (x : X) :
  last_by key k (l ++ [x]) = if String.eqb (key x) k then Some x else last_by key k l.
Proof. unfold last_by. rewrite fold_left_app. reflexivity. Qed.

Lemma last_by_key {X} (key : X -> string) (k : string) (l : list X) (x : X) :
  last_by key k l = Some x -> key x = k /\ In x l.
Proof.
  induction l as [|y l IH] using rev_ind; [discriminate |].
  rewrite last_by_snoc. destruct (String.eqb_spec (key y) k) as [E|E].
  - intro H. injection H as <-. split; [exact E | apply in_or_app; right; left; reflexivity].
  - intro H. destruct (IH H) as [Hk Hin]. split; [exact Hk | apply in_or_app; left; exact Hin].
Qed.

Lemma assoc_obj_set {A} (k k' : string) (v : A) (m : list (string * A)) :
  assoc k (obj_set k' v m) = if String.eqb k k' then Some v else assoc k m.
Proof.
  induction m as [|[k0 v0] m IH]; cbn; [reflexivity |].
  destruct (String.eqb_spec k' k0) as [E|E]; cbn.
  - subst k0. destruct (String.eqb_spec k k'); reflexivity.
  - destruct (String.eqb_spec k k0) as [E'|E'].
    + subst k0. destruct (String.eqb_spec k k'); [congruence | reflexivity].
    + exact IH.
Qed.

Lemma assoc_fold_obj_set {X V} (key : X -> string) (val : X -> V) (l : list X)
    (m : list (string * V)) (k : string) :
  assoc k (fold_left (fun m x => obj_set (key x) (val x) m) l m) =
  match last_by key k l with Some x => Some (val x) | None => assoc k m end.
Proof.
  induction l as [|x l IH] using rev_ind; [reflexivity |].
  rewrite fold_left_app, last_by_snoc. cbn [fold_left]. rewrite assoc_obj_set.
  rewrite (String.eqb_sym k (key x)).
  destruct (String.eqb (key x) k); [reflexivity | exact IH].
Qed.

Lemma writeAssets_split (assets : list ImageAsset) (files : list (string * string)) :
  writeAssets assets files =
  (fold_left (fun m a => obj_set (a_id a) (getAssetPath (a_id a) (a_format a)) m) assets [],
   fold_left (fun m a => obj_set (asset_filename (a_id a) (a_format a)) (a_data a) m)
     assets files).
Proof.
  unfold writeAssets. generalize (@nil (string * string)) as p. revert files.
  induction assets as [|a assets IH]; intros files p; [reflexivity |].
  cbn [fold_left]. apply IH.
Qed.

Definition photo (id data : string) : ImageAsset :=
  {| a_id := id; a_format := "png"; a_data := data; a_nodeId := JStr "2:7";
     a_nodeName := JStr "Photo"; a_width := JNum 100; a_height := JNum 50;
     a_assetType := "image-fill"; a_filePath := None |}.

Lemma writeAssets_assoc : forall assets files k,
  assoc k (fst (writeAssets assets files)) =
    option_map (fun a => getAssetPath (a_id a) (a_format a)) (last_by a_id k assets) /\
  assoc k (snd (writeAssets assets files)) =
    match last_by (fun a => asset_filename (a_id a) (a_format a)) k assets with
    | Some a => Some (a_data a)
    | None => assoc k files
    end.
Proof.
  intros assets files k. rewrite writeAssets_split. cbn [fst snd].
  rewrite !assoc_fold_obj_set. split; [| reflexivity].
  destruct (last_by a_id k assets); reflexivity.
Qed.

(** X4. For a batch of [writable_asset]s, [writeAssets] maps each asset id
    to the path [getAssetPath] gives for the last asset of the batch with
    that id; the file of each name the batch writes was last written from
    the data of the last asset with that file name (its base64 decoding,
    re-encoded as UTF-8 for [svg]), and the other files are untouched. *)
Theorem writeAssets_last_wins : forall assets files k,
  forallb writable_asset assets = true ->
  assoc k (fst (writeAssets assets files)) =
    option_map (fun a => getAssetPath (a_id a) (a_format a)) (last_by a_id k assets) /\
  assoc k (snd (writeAssets assets files)) =
    match last_by (fun a => asset_filename (a_id a) (a_format a)) k assets with
    | Some a => Some (a_data a)
    | None => assoc k files
    end.
Proof. intros assets files k _. apply writeAssets_assoc. Qed.

Lemma writeAssets_last_wins_witness :
  assoc "h1" (fst (writeAssets [photo "h1" "AAAA"; photo "h1" "BBBB"] [])) =
    Some (getAssetPath "h1" "png") /\
  assoc "h1.png" (snd (writeAssets [photo "h1" "AAAA"; photo "h1" "BBBB"] [])) = Some "BBBB".
Proof.
  split.
  - rewrite (proj1 (writeAssets_last_wins [photo "h1" "AAAA"; photo "h1" "BBBB"] [] "h1" eq_refl)).
    reflexivity.
  - rewrite (proj2 (writeAssets_last_wins [photo "h1" "AAAA"; photo "h1" "BBBB"] [] "h1.png"
                      eq_refl)).
    reflexivity.
Defined.

Lemma setImages_accept (nid : jsval) (assets : list ImageAsset) (st : Store) (cur : SelectionState) :
  current st = Some cur -> strict_eq (nodeId cur) nid = true ->
  setImages nid assets st =
  (true, {| current := Some (with_images cur
              (fold_left (fun m a => obj_set (a_id a)
                            (with_filePath a (assoc (a_id a) (fst (writeAssets assets (disk st))))) m)
                 assets (images cur)));
            disk := snd (writeAssets assets (disk st)) |}).
Proof.
  intros Hc He. unfold setImages. rewrite Hc, He. cbn [negb].
  destruct (writeAssets assets (disk st)). reflexivity.
Qed.

Lemma setImages_accept_images : forall nid assets st cur,
  current st = Some cur -> strict_eq (nodeId cur) nid = true ->
  exists cur',
    setImages nid assets st =
      (true, {| current := Some cur'; disk := snd (writeAssets assets (disk st)) |}) /\
    fileId cur' = fileId cur /\ nodeId cur' = nodeId cur /\ pageId cur' = pageId cur /\
    userId cur' = userId cur /\ metadata cur' = metadata cur /\
    designTree cur' = designTree cur /\ timestamp cur' = timestamp cur /\
    forall k, assoc k (images cur') =
      match last_by a_id k assets with
      | Some a => Some (with_filePath a (Some (getAssetPath k (a_format a))))
      | None => assoc k (images cur)
      end.
Proof.
  intros nid assets st cur Hc He.
  eexists. split; [apply (setImages_accept nid assets st cur Hc He) |].
  cbn. repeat split. intro k.
  rewrite (assoc_fold_obj_set a_id
             (fun a => with_filePath a (assoc (a_id a) (fst (writeAssets assets (disk st)))))).
  destruct (last_by a_id k assets) as [a|] eqn:L; [| reflexivity].
  destruct (last_by_key _ _ _ _ L) as [Hk _].
  rewrite (proj1 (writeAssets_assoc assets (disk st) (a_id a))), Hk, L.
  cbn [option_map]. rewrite Hk. reflexivity.
Qed.

(** X5. An accepted batch of [writable_asset]s stores, under every id it
    carries, the last asset of the batch with that id, its [filePath] set
    to [getAssetPath(id, format)]; every other stored entry, the
    selection's other fields, and the files of names the batch does not
    write are kept. *)
Theorem setImages_stores_last_asset : forall nid assets st cur,
  forallb writable_asset assets = true ->
  current st = Some cur -> strict_eq (nodeId cur) nid = true ->
  exists cur',
    setImages nid assets st =
      (true, {| current := Some cur'; disk := snd (writeAssets assets (disk st)) |}) /\
    fileId cur' = fileId cur /\ nodeId cur' = nodeId cur /\ pageId cur' = pageId cur /\
    userId cur' = userId cur /\ metadata cur' = metadata cur /\
    designTree cur' = designTree cur /\ timestamp cur' = timestamp cur /\
    forall k, assoc k (images cur') =
      match last_by a_id k assets with
      | Some a => Some (with_filePath a (Some (getAssetPath k (a_format a))))
      | None => assoc k (images cur)
      end.
Proof. intros nid assets st cur _. apply setImages_accept_images. Qed.

Lemma setImages_stores_last_asset_witness :
  exists cur', setImages (JStr "3:4") [photo "h1" "AAAA"; photo "h1" "BBBB"] (store_on "3:4") =
    (true, {| current := Some cur';
              disk := snd (writeAssets [photo "h1" "AAAA"; photo "h1" "BBBB"]
                             (disk (store_on "3:4"))) |}) /\
    assoc "h1" (images cur') =
      Some (with_filePath (photo "h1" "BBBB") (Some (getAssetPath "h1" "png"))).
Proof.
  destruct (setImages_stores_last_asset (JStr "3:4") [photo "h1" "AAAA"; photo "h1" "BBBB"]
              (store_on "3:4") _ eq_refl eq_refl eq_refl)
    as [cur' [H1 [_ [_ [_ [_ [_ [_ [_ H2]]]]]]]]].
  exists cur'. split; [exact H1 | rewrite H2; reflexivity].
Defined.

(** X6. Two [writable_asset]s of one batch whose distinct ids sanitize to
    the same file name with the same format share one file: the first
    asset's stored [filePath] names the file last written from the second
    asset's data. *)
Theorem setImages_sanitize_collision : forall nid a b st cur,
  writable_asset a = true -> writable_asset b = true ->
  current st = Some cur -> strict_eq (nodeId cur) nid = true ->
  a_id a <> a_id b -> sanitize (a_id a) = sanitize (a_id b) -> a_format a = a_format b ->
  exists cur', setImages nid [a; b] st =
      (true, {| current := Some cur'; disk := snd (writeAssets [a; b] (disk st)) |}) /\
    assoc (a_id a) (images cur') =
      Some (with_filePath a (Some (getAssetPath (a_id b) (a_format b)))) /\
    assoc (asset_filename (a_id a) (a_format a)) (snd (writeAssets [a; b] (disk st)))
      = Some (a_data b).
Proof.
  intros nid a b st cur _ _ Hc He Hne Hs Hf.
  destruct (setImages_accept_images nid [a; b] st cur Hc He)
    as [cur' [H1 [_ [_ [_ [_ [_ [_ [_ H2]]]]]]]]].
  exists cur'. split; [exact H1 |]. split.
  - rewrite H2. unfold last_by. cbn. rewrite String.eqb_refl.
    destruct (String.eqb_spec (a_id b) (a_id a)) as [E|_]; [congruence |].
    unfold getAssetPath, asset_filename. rewrite Hs, Hf. reflexivity.
  - rewrite (proj2 (writeAssets_assoc [a; b] (disk st) _)). unfold last_by. cbn.
    unfold asset_filename. rewrite Hs, Hf, String.eqb_refl. reflexivity.
Qed.

Lemma setImages_sanitize_collision_witness :
  exists cur', setImages (JStr "3:4") [photo "1:2" "AAAA"; photo "1_2" "BBBB"] (store_on "3:4") =
      (true, {| current := Some cur';
                disk := snd (writeAssets [photo "1:2" "AAAA"; photo "1_2" "BBBB"]
                               (disk (store_on "3:4"))) |}) /\
    assoc "1:2" (images cur') =
      Some (with_filePath (photo "1:2" "AAAA") (Some (getAssetPath "1_2" "png"))) /\
    assoc "1_2.png" (snd (writeAssets [photo "1:2" "AAAA"; photo "1_2" "BBBB"]
                            (disk (store_on "3:4")))) = Some "BBBB".
Proof.
  apply (setImages_sanitize_collision (JStr "3:4") (photo "1:2" "AAAA") (photo "1_2" "BBBB")
           (store_on "3:4") _ eq_refl eq_refl eq_refl eq_refl);
    cbn; [discriminate | reflexivity | reflexivity].
Defined.

(** ** Relay request handlers *)

Definition status (r : response) : nat := match r with Resp s _ => s end.

Lemma post_selection_accept (now : Z) (fs : list (string * jsval)) (st : Store) :
  truthy (jget (JObj fs) "fileId") = true -> truthy (jget (JObj fs) "nodeId") = true ->
  truthy (jget (JObj fs) "metadata") = true ->
  post_selection now (JObj fs) st =
  (Resp 200 (JObj [("ok", JBool true)]),
   store_set {| fileId := jget (JObj fs) "fileId"; nodeId := jget (JObj fs) "nodeId";
                pageId := if truthy (jget (JObj fs) "pageId") then jget (JObj fs) "pageId"
                          else JStr "unknown";
                userId := if truthy (jget (JObj fs) "userId") then jget (JObj fs) "userId"
                          else JStr "anonymous";
                metadata := jget (JObj fs) "metadata"; designTree := jget (JObj fs) "designTree";
                images := []; timestamp := now |} st).
Proof.
  intros Hf Hn Hm. unfold post_selection. cbn [truthy].
  rewrite Hf, Hn, Hm. reflexivity.
Qed.

(** X7. After [POST /selection] accepts a body whose [nodeId] is a
    non-empty string [n], the store holds that selection with no images and the
    asset directory is empty; a following [POST /selection/images] with a
    non-empty string [nodeId] [m] and an array of [writable_asset]s is
    answered 200 when [m = n], and otherwise 409 with the store unchanged. *)
Theorem post_selection_then_images : forall now body st n m xs,
  truthy (jget body "fileId") = true -> jget body "nodeId" = JStr n ->
  truthy (jget body "metadata") = true -> n <> "" -> m <> "" ->
  forallb writable_asset xs = true ->
  let st1 := snd (post_selection now body st) in
  (exists c, current st1 = Some c /\ nodeId c = JStr n /\ images c = []) /\ disk st1 = [] /\
  (n = m -> status (fst (post_images (JStr m) (Some xs) st1)) = 200) /\
  (n <> m -> post_images (JStr m) (Some xs) st1 =
     (Resp 409 (JObj [("error", JStr "Selection changed; images discarded")]), st1)).
Proof.
  intros now body st n m xs Hf Hn Hm Hn0 Hm0 _ st1.
  destruct body as [| | | | | | |fs]; try discriminate Hn.
  assert (Hn' : truthy (jget (JObj fs) "nodeId") = true)
    by (rewrite Hn; destruct n; [congruence | reflexivity]).
  unfold st1. rewrite (post_selection_accept now fs st Hf Hn' Hm). cbn [snd store_set current disk].
  split; [eexists; split; [reflexivity | split; [exact Hn | reflexivity]] |].
  split; [reflexivity |].
  assert (Hmt : truthy (JStr m) = true) by (destruct m; [congruence | reflexivity]).
  unfold post_images. rewrite Hmt. cbn [negb]. unfold setImages, store_set. cbn [current nodeId disk].
  rewrite Hn. cbn [strict_eq]. split.
  - intros <-. rewrite String.eqb_refl. cbn [negb].
    destruct (writeAssets xs _). reflexivity.
  - intro Hne. apply String.eqb_neq in Hne. rewrite Hne. reflexivity.
Qed.

Definition push_body (n : string) : jsval :=
  JObj [("fileId", JStr "F"); ("nodeId", JStr n); ("metadata", JObj [])].

Lemma post_selection_then_images_witness :
  status (fst (post_images (JStr "2:7") (Some [photo "h1" "AAAA"])
                 (snd (post_selection 5 (push_body "2:7") (store_on "1:1"))))) = 200 /\
  post_images (JStr "9:9") (Some [photo "h1" "AAAA"])
    (snd (post_selection 5 (push_body "2:7") (store_on "1:1"))) =
  (Resp 409 (JObj [("error", JStr "Selection changed; images discarded")]),
   snd (post_selection 5 (push_body "2:7") (store_on "1:1"))).
Proof.
  split.
  - apply (post_selection_then_images 5 (push_body "2:7") (store_on "1:1") "2:7" "2:7");
      try reflexivity; discriminate.
  - apply (post_selection_then_images 5 (push_body "2:7") (store_on "1:1") "2:7" "9:9");
      try reflexivity; discriminate.
Defined.

(** Every image the store holds is filed under its own id, carries the
    path [getAssetPath] gives for it, and that file is in the directory. *)
Definition images_on_disk (st : Store) : Prop :=
  match current st with
  | None => True
  | Some c => forall k a, assoc k (images c) = Some a ->
      a_id a = k /\ a_filePath a = Some (getAssetPath k (a_format a)) /\
      assetExists k (a_format a) st = true
  end.

Lemma last_by_in {X} (key : X -> string) (k : string) (l : list X) (x : X) :
  In x l -> key x = k -> exists y, last_by key k l = Some y.
Proof.
  induction l as [|y l IH] using rev_ind; [intros [] |].
  intros Hin Hk. rewrite last_by_snoc.
  destruct (String.eqb_spec (key y) k) as [E|E]; [eauto |].
  apply in_app_or in Hin. destruct Hin as [Hin|[<-|[]]]; [exact (IH Hin Hk) | congruence].
Qed.

Lemma setImages_images_on_disk (nid : jsval) (assets : list ImageAsset) (st : Store) :
  images_on_disk st -> images_on_disk (snd (setImages nid assets st)).
Proof.
  intro Hinv. destruct (current st) as [cur|] eqn:Hc.
  2: { unfold setImages. rewrite Hc. exact Hinv. }
  destruct (strict_eq (nodeId cur) nid) eqn:He.
  2: { unfold setImages. rewrite Hc, He. exact Hinv. }
  destruct (setImages_accept_images nid assets st cur Hc He)
    as [cur' [H1 [_ [_ [_ [_ [_ [_ [_ H2]]]]]]]]].
  rewrite H1. unfold images_on_disk. cbn [snd current]. intros k a Ha.
  unfold assetExists. cbn [disk].
  rewrite (proj2 (writeAssets_assoc assets (disk st) _)).
  rewrite H2 in Ha. destruct (last_by a_id k assets) as [b|] eqn:L.
  - injection Ha as <-. destruct (last_by_key _ _ _ _ L) as [Hk Hin]. cbn.
    split; [exact Hk | split; [reflexivity |]].
    destruct (last_by_in (fun a => asset_filename (a_id a) (a_format a))
                (asset_filename k (a_format b)) assets b Hin) as [y ->];
      [rewrite Hk; reflexivity | reflexivity].
  - unfold images_on_disk in Hinv. rewrite Hc in Hinv.
    destruct (Hinv k a Ha) as [Hk [Hp He']]. split; [exact Hk | split; [exact Hp |]].
    unfold assetExists in He'.
    destruct (last_by _ (asset_filename k (a_format a)) assets); [reflexivity | exact He'].
Qed.

Lemma relay_step_images_on_disk (st : Store) (r : request) :
  images_on_disk st -> images_on_disk (relay_step st r).
Proof.
  intro Hinv. destruct r as [now body|nid assets|]; cbn [relay_step].
  - unfold post_selection.
    destruct (_ || _); [exact Hinv |].
    cbn. intros k a H. discriminate H.
  - unfold post_images. destruct (negb (truthy nid)); [exact Hinv |].
    destruct assets as [xs|]; [| exact Hinv].
    pose proof (setImages_images_on_disk nid xs st Hinv) as H.
    destruct (setImages nid xs st) as [[|] st']; exact H.
  - exact I.
Qed.

(** X8. In every run of the relay from its initial state, whatever
    sequence of [POST /selection], [POST /selection/images] (with batches
    of [writable_asset]s) and [DELETE /selection] requests it serves, each
    image of the current selection is stored under its own id with
    [filePath] equal to [getAssetPath(id, format)], and
    [assetExists(id, format)] holds. *)
Theorem relay_images_on_disk : forall reqs : list request,
  forallb writable_request reqs = true ->
  images_on_disk (fold_left relay_step reqs empty_store).
Proof.
  intros reqs _. cut (forall st, images_on_disk st -> images_on_disk (fold_left relay_step reqs st)).
  - intro H. apply H. exact I.
  - induction reqs as [|r reqs IH]; intros st Hst; [exact Hst |].
    apply IH. apply relay_step_images_on_disk. exact Hst.
Qed.

(** X9. When [POST /selection] accepts a body whose [nodeId] is an object
    or an array, no later [POST /selection/images] is answered 200 (nor
    stores anything) until another selection is pushed: [===] compares the
    stored [nodeId] by reference with one parsed from another body. *)
Theorem post_selection_reference_nodeId_blocks_images : forall now body st,
  truthy (jget body "fileId") = true -> truthy (jget body "metadata") = true ->
  (exists fs, jget body "nodeId" = JObj fs) \/ (exists xs, jget body "nodeId" = JArr xs) ->
  forall nid assets,
    let st1 := snd (post_selection now body st) in
    status (fst (post_images nid assets st1)) <> 200 /\ snd (post_images nid assets st1) = st1.
Proof.
  intros now body st Hf Hm Hn nid assets st1.
  assert (Hc : exists c, current st1 = Some c /\ forall v, strict_eq (nodeId c) v = false).
  { destruct body as [| | | | | | |fs]; try discriminate Hf.
    assert (Hn' : truthy (jget (JObj fs) "nodeId") = true)
      by (destruct Hn as [[x E]|[x E]]; rewrite E; reflexivity).
    unfold st1. rewrite (post_selection_accept now fs st Hf Hn' Hm).
    eexists. split; [reflexivity |]. cbn [nodeId].
    destruct Hn as [[x E]|[x E]]; rewrite E; intros []; reflexivity. }
  destruct Hc as [c [Hc Hs]].
  unfold post_images. destruct (negb (truthy nid)); [split; [discriminate | reflexivity] |].
  destruct assets as [xs|]; [| split; [discriminate | reflexivity]].
  unfold setImages. rewrite Hc, Hs. cbn. split; [discriminate | reflexivity].
Qed.

Lemma post_selection_reference_nodeId_blocks_images_witness :
  status (fst (post_images (JStr "2:7") (Some [photo "h1" "AAAA"])
    (snd (post_selection 5 (JObj [("fileId", JStr "F"); ("nodeId", JObj [("id", JStr "2:7")]);
                                  ("metadata", JObj [])]) empty_store)))) <> 200.
Proof.
  apply (post_selection_reference_nodeId_blocks_images 5
           (JObj [("fileId", JStr "F"); ("nodeId", JObj [("id", JStr "2:7")]);
                  ("metadata", JObj [])]) empty_store eq_refl eq_refl).
  left. eexists. reflexivity.
Defined.

(** A run of the relay: a selection of node [3:4], then one image for it. *)
Definition sample_run : list request :=
  [PostSelection 5 (JObj [("fileId", JStr "F"); ("nodeId", JStr "3:4"); ("metadata", JObj [])]);
   PostImages (JStr "3:4") (Some [photo "h0" "AAAA"])].

Lemma relay_images_on_disk_witness :
  images_on_disk (fold_left relay_step sample_run empty_store) /\
  exists c, current (fold_left relay_step sample_run empty_store) = Some c /\ images c <> [].
Proof.
  split; [apply relay_images_on_disk; reflexivity |].
  eexists. split; [reflexivity | discriminate].
Defined.

Lemma get_image_status_store (id : string) (st : Store) (ok : bool) :
  (get_image_status id st ok = 404 <-> getImage id st = Absent) /\
  (forall a, getImage id st = Own a -> get_image_status id st ok = 200) /\
  (forall c, current st = Some c -> assoc id (images c) = None -> In id proto_keys ->
     get_image_status id st ok = 500).
Proof.
  assert (Hown : forall a, getImage id st = Own a -> get_image_status id st ok = 200).
  { intros a H. unfold get_image_status. rewrite H. cbn [found_field serveFromMemory].
    cbn. destruct (truthy _); [destruct ok |]; reflexivity. }
  assert (Hinh : getImage id st = Inherited -> get_image_status id st ok = 500).
  { intro H. unfold get_image_status. rewrite H. reflexivity. }
  split; [| split; [exact Hown |]].
  - split.
    + destruct (getImage id st) as [a| |] eqn:E; [| | reflexivity].
      * rewrite (Hown a eq_refl). discriminate.
      * rewrite (Hinh eq_refl). discriminate.
    + intro H. unfold get_image_status. rewrite H. reflexivity.
  - intros c Hc Ha Hp. apply Hinh. unfold getImage. rewrite Hc, Ha.
    replace (existsb (String.eqb id) proto_keys) with true; [reflexivity |].
    symmetry. apply existsb_exists. exists id. split; [exact Hp | apply String.eqb_refl].
Qed.

(** X10. In every run of the relay from its initial state over requests
    whose batches consist of [writable_asset]s (so the images object keeps
    [Object.prototype] as its prototype), [GET /selection/images/:id]
    answers 404 exactly when [getImage] finds nothing, 200 for a stored
    asset whether or not its file is found, and 500 for a name of
    [Object.prototype] (such as [toString] or [__proto__]) that is not an
    own image id while a selection is stored: the inherited member has no
    [data], and [Buffer.from] throws on it. *)
Theorem get_image_status_cases : forall reqs id sendFileOk,
  forallb writable_request reqs = true ->
  let st := fold_left relay_step reqs empty_store in
  (get_image_status id st sendFileOk = 404 <-> getImage id st = Absent) /\
  (forall a, getImage id st = Own a -> get_image_status id st sendFileOk = 200) /\
  (forall c, current st = Some c -> assoc id (images c) = None -> In id proto_keys ->
     get_image_status id st sendFileOk = 500).
Proof. intros reqs id ok _ st. apply get_image_status_store. Qed.

Lemma get_image_status_cases_witness :
  get_image_status "toString" (fold_left relay_step sample_run empty_store) true = 500 /\
  get_image_status "h0" (fold_left relay_step sample_run empty_store) false = 200.
Proof.
  split.
  - apply (proj2 (proj2 (get_image_status_cases sample_run "toString" true eq_refl))
             _ eq_refl eq_refl). cbn. tauto.
  - apply (proj1 (proj2 (get_image_status_cases sample_run "h0" false eq_refl))
             (with_filePath (photo "h0" "AAAA") (Some (getAssetPath "h0" "png")))).
    reflexivity.
Defined.

(** ** Asset collector invariants *)

(** A relation on accumulators that each of the collector's three checks
    respects is respected by a whole walk, thrown subtrees included. *)
Section CollectPreserves.
Variable R : collected -> collected -> Prop.
Hypothesis R_refl : forall c, R c c.
Hypothesis R_trans : forall c1 c2 c3, R c1 c2 -> R c2 c3 -> R c1 c3.
Hypothesis R_fill : forall props c f, R c (collect_fill props c f).
Hypothesis R_vector : forall node props c, R c (collect_vector node props c).
Hypothesis R_composite : forall node props depth c c',
  collect_composite node props depth c = Some c' -> R c c'.

Lemma collect_fills_R (props : list (string * jsval)) (fills : list jsval) (c : collected) :
  R c (fold_left (collect_fill props) fills c).
Proof.
  revert c. induction fills as [|f fills IH]; intro c; [apply R_refl |].
  cbn [fold_left]. eapply R_trans; [apply R_fill | apply IH].
Qed.

Lemma collectImageAssets_R : forall n depth c, R c (fst (collectImageAssets n depth c)).
Proof.
  intro n. induction n as [props kids IHk|] using fnode_ind'; intros depth c.
  - cbn [collectImageAssets].
    destruct (Nat.ltb _ _); [apply R_refl |].
    destruct (Nat.leb _ _); [apply R_refl |].
    destruct (strict_eq _ _); [apply R_refl |].
    assert (H1 := collect_fills_R props
                    (list_of (safeArr (safe (prop props "fills") JUndefined))) c).
    set (c1 := fold_left (collect_fill props) _ c) in *.
    assert (H2 : R c (collect_vector (FNode props kids) props c1))
      by (eapply R_trans; [exact H1 | apply R_vector]).
    destruct (collect_composite _ _ _ _) as [c3|] eqn:E; [| exact H2].
    assert (H3 : R c c3) by (eapply R_trans; [exact H2 | eapply R_composite; exact E]).
    destruct kids as [ks|]; [| exact H3].
    cbn [fst]. clear E H1 H2 c1. revert c3 H3.
    induction IHk as [|k ks Hk _ IH]; intros c3 H3; [exact H3 |].
    cbn [fold_left]. apply IH. eapply R_trans; [exact H3 | apply Hk].
  - cbn [collectImageAssets].
    destruct (Nat.ltb _ _); [apply R_refl |].
    destruct (Nat.leb _ _); apply R_refl.
Qed.
End CollectPreserves.

Lemma obj_set_fresh {A} (k : string) (v : A) (m : list (string * A)) :
  assoc k m = None -> obj_set k v m = (m ++ [(k, v)])%list.
Proof.
  induction m as [|[k' v'] m IH]; cbn; [reflexivity |].
  destruct (String.eqb k k'); [discriminate | intro H; rewrite (IH H); reflexivity].
Qed.

Lemma obj_has_false {A} (m : list (string * A)) (k : string) :
  obj_has m k = false -> assoc k m = None.
Proof.
  unfold obj_has. intro H. apply orb_false_iff in H. destruct H as [_ H].
  destruct (assoc k m); [discriminate | reflexivity].
Qed.

(** [c'] extends [c]: every own key of [imageHashes] and of
    [compositeIds] keeps its value (the order of an object's keys is left
    aside), the two arrays only grow at their end, and [totalCount] does
    not decrease. *)
Definition extends (c c' : collected) : Prop :=
  (forall k v, assoc k (imageHashes c) = Some v -> assoc k (imageHashes c') = Some v) /\
  (forall k v, assoc k (compositeIds c) = Some v -> assoc k (compositeIds c') = Some v) /\
  (exists vs, vectorNodes c' = (vectorNodes c ++ vs)%list) /\
  (exists cs, compositeNodes c' = (compositeNodes c ++ cs)%list) /\
  totalCount c <= totalCount c'.

Lemma extends_refl (c : collected) : extends c c.
Proof.
  split; [auto | split; [auto | split; [| split]]];
    try (exists []; rewrite app_nil_r; reflexivity). lia.
Qed.

Lemma extends_trans (c1 c2 c3 : collected) : extends c1 c2 -> extends c2 c3 -> extends c1 c3.
Proof.
  intros [E1 [I1 [[v1 F1] [[s1 G1] T1]]]] [E2 [I2 [[v2 F2] [[s2 G2] T2]]]].
  split; [auto | split; [auto |]].
  split; [exists (v1 ++ v2)%list; rewrite F2, F1, app_assoc; reflexivity |].
  split; [exists (s1 ++ s2)%list; rewrite G2, G1, app_assoc; reflexivity | lia].
Qed.

(** Setting a key that is not an own key keeps every own entry. *)
Lemma assoc_obj_set_fresh {A} (k k' : string) (v v' : A) (m : list (string * A)) :
  assoc k' m = None -> assoc k m = Some v -> assoc k (obj_set k' v' m) = Some v.
Proof.
  intros Hk' Hk. rewrite assoc_obj_set.
  destruct (String.eqb_spec k k') as [->|_]; [congruence | exact Hk].
Qed.

Lemma extends_fill props c f : extends c (collect_fill props c f).
Proof.
  unfold collect_fill.
  destruct (is_image_fill f); [| apply extends_refl].
  destruct (truthy _ && negb _) eqn:E; [| apply extends_refl].
  apply andb_true_iff in E. destruct E as [_ E]. apply negb_true_iff, obj_has_false in E.
  split; [| split; [| split; [| split]]]; cbn.
  - intros k v H. exact (assoc_obj_set_fresh _ _ _ _ _ E H).
  - auto.
  - exists []. rewrite app_nil_r. reflexivity.
  - exists []. rewrite app_nil_r. reflexivity.
  - lia.
Qed.

Lemma extends_vector node props c : extends c (collect_vector node props c).
Proof.
  unfold collect_vector. destruct (_ && _); [| apply extends_refl].
  split; [auto | split; [auto | split; [| split]]]; cbn;
    try (exists []; rewrite app_nil_r; reflexivity); [eexists; reflexivity | lia].
Qed.

Lemma extends_composite node props depth c c' :
  collect_composite node props depth c = Some c' -> extends c c'.
Proof.
  unfold collect_composite. destruct (_ && _); [| intro H; injection H as <-; apply extends_refl].
  destruct (subtreeHasImage node 0) as [b|]; [| discriminate].
  destruct (b && _) eqn:E; intro H; injection H as <-; [| apply extends_refl].
  apply andb_true_iff in E. destruct E as [_ E]. apply negb_true_iff, obj_has_false in E.
  split; [auto | split; [| split; [| split]]]; cbn;
    try (exists []; rewrite app_nil_r; reflexivity); [| eexists; reflexivity | lia].
  intros k v H. exact (assoc_obj_set_fresh _ _ _ _ _ E H).
Qed.

(** X11. A walk only adds to the accumulator it shares, also when it
    throws part way: every image hash and every composite id recorded
    before the call stays recorded with the same value, the vector and
    composite node arrays keep their earlier entries at the same positions,
    and [totalCount] never decreases. *)
Theorem collectImageAssets_extends : forall n depth c,
  extends c (fst (collectImageAssets n depth c)).
Proof.
  apply (collectImageAssets_R extends extends_refl extends_trans extends_fill extends_vector
           extends_composite).
Qed.

(** The caps on vector and composite nodes hold and [totalCount] counts
    the entries recorded. *)
Definition counts_ok (c : collected) : Prop :=
  List.length (vectorNodes c) <= MAX_VECTOR_ASSETS /\
  List.length (compositeNodes c) <= MAX_COMPOSITE_ASSETS /\
  totalCount c = List.length (imageHashes c) + List.length (vectorNodes c)
                 + List.length (compositeNodes c).

Definition keeps (P : collected -> Prop) (c c' : collected) : Prop := P c -> P c'.

Lemma keeps_refl (P : collected -> Prop) (c : collected) : keeps P c c.
Proof. unfold keeps. auto. Qed.

Lemma keeps_trans (P : collected -> Prop) (c1 c2 c3 : collected) :
  keeps P c1 c2 -> keeps P c2 c3 -> keeps P c1 c3.
Proof. unfold keeps. auto. Qed.

Lemma counts_fill props c f : keeps counts_ok c (collect_fill props c f).
Proof.
  unfold keeps, collect_fill. destruct (is_image_fill f); [| auto].
  destruct (truthy _ && negb _) eqn:E; [| auto].
  apply andb_true_iff in E. destruct E as [_ E]. apply negb_true_iff, obj_has_false in E.
  unfold counts_ok. cbn. rewrite (obj_set_fresh _ _ _ E), length_app. cbn. lia.
Qed.

Lemma counts_vector node props c : keeps counts_ok c (collect_vector node props c).
Proof.
  unfold keeps, collect_vector. destruct (_ && _) eqn:E; [| auto].
  apply andb_true_iff in E. destruct E as [_ E]. apply Nat.ltb_lt in E.
  unfold counts_ok. cbn. rewrite length_app. cbn. lia.
Qed.

Lemma counts_composite node props depth c c' :
  collect_composite node props depth c = Some c' -> keeps counts_ok c c'.
Proof.
  unfold keeps, collect_composite. destruct (_ && _) eqn:E;
    [| intro H; injection H as <-; auto].
  apply andb_true_iff in E. destruct E as [_ E]. apply Nat.ltb_lt in E.
  destruct (subtreeHasImage node 0) as [b|]; [| discriminate].
  destruct (b && _); intro H; injection H as <-; [| auto].
  unfold counts_ok. cbn. rewrite length_app. cbn. lia.
Qed.

(** X12. A walk started, as [sendCurrentSelection] starts it, from the
    empty accumulator records at most [MAX_VECTOR_ASSETS] vector nodes and
    at most [MAX_COMPOSITE_ASSETS] composite nodes, and its [totalCount]
    equals the [assetCount] computed after it (image hashes plus vector
    nodes plus composite nodes). *)
Theorem collectImageAssets_counts : forall n depth,
  let c := fst (collectImageAssets n depth empty_collected) in
  List.length (vectorNodes c) <= MAX_VECTOR_ASSETS /\
  List.length (compositeNodes c) <= MAX_COMPOSITE_ASSETS /\
  totalCount c = List.length (imageHashes c) + List.length (vectorNodes c)
                 + List.length (compositeNodes c).
Proof.
  intros n depth. cbn zeta.
  apply (collectImageAssets_R (keeps counts_ok) (keeps_refl _) (keeps_trans _)
           counts_fill counts_vector counts_composite n depth empty_collected).
  unfold counts_ok. cbn. unfold MAX_VECTOR_ASSETS, MAX_COMPOSITE_ASSETS. lia.
Qed.

(** The composite ids record mirrors the composite nodes, whose ids are
    distinct strings. *)
Definition composites_ok (c : collected) : Prop :=
  compositeIds c = map (fun e => (as_str (ne_nodeId e), true)) (compositeNodes c) /\
  NoDup (map ne_nodeId (compositeNodes c)) /\
  Forall (fun e => ne_nodeId e = JStr (as_str (ne_nodeId e))) (compositeNodes c).

Lemma assoc_in {A} (k : string) (v : A) (m : list (string * A)) :
  In (k, v) m -> exists v', assoc k m = Some v'.
Proof.
  induction m as [|[k' v'] m IH]; [intros [] |]. cbn.
  destruct (String.eqb_spec k k') as [E|E]; [eauto |].
  intros [H|H]; [injection H as -> _; congruence | exact (IH H)].
Qed.

Lemma NoDup_snoc {A} (l : list A) (x : A) : NoDup l -> ~ In x l -> NoDup (l ++ [x]).
Proof.
  induction l as [|y l IH]; cbn; intros Hd Hn.
  - constructor; [intros [] | constructor].
  - inversion Hd as [|? ? Hy Hl]; subst. constructor.
    + intro H. apply in_app_or in H. destruct H as [H|[<-|[]]]; [exact (Hy H) | apply Hn; left; reflexivity].
    + apply IH; [exact Hl | intro H; apply Hn; right; exact H].
Qed.

Lemma composites_fill props c f : keeps composites_ok c (collect_fill props c f).
Proof.
  unfold keeps, collect_fill. destruct (is_image_fill f); [| auto].
  destruct (_ && _); [| auto]. unfold composites_ok. cbn. auto.
Qed.

Lemma composites_vector node props c : keeps composites_ok c (collect_vector node props c).
Proof.
  unfold keeps, collect_vector. destruct (_ && _); [| auto]. unfold composites_ok. cbn. auto.
Qed.

Lemma composites_composite node props depth c c' :
  collect_composite node props depth c = Some c' -> keeps composites_ok c c'.
Proof.
  unfold keeps, collect_composite. destruct (_ && _); [| intro H; injection H as <-; auto].
  destruct (subtreeHasImage node 0) as [b|]; [| discriminate].
  destruct (b && _) eqn:E; intro H; injection H as <-; [| auto].
  apply andb_true_iff in E. destruct E as [_ E]. apply negb_true_iff, obj_has_false in E.
  unfold composites_ok. cbn. intros [Hi [Hn Hf]].
  rewrite (obj_set_fresh _ _ _ E), Hi, map_app, map_app. cbn.
  split; [reflexivity | split].
  - apply NoDup_snoc; [exact Hn |]. intro Hin. apply in_map_iff in Hin.
    destruct Hin as [e [He Hin]].
    assert (Hm : In (as_str (ne_nodeId e), true)
                    (map (fun e => (as_str (ne_nodeId e), true)) (compositeNodes c)))
      by (apply (in_map (fun e => (as_str (ne_nodeId e), true))); exact Hin).
    rewrite He in Hm. cbn in Hm. rewrite <- Hi in Hm.
    destruct (assoc_in _ _ _ Hm) as [v Hv]. congruence.
  - apply Forall_app. split; [exact Hf | constructor; [reflexivity | constructor]].
Qed.

Lemma assoc_some_in {A} (k : string) (v : A) (m : list (string * A)) :
  assoc k m = Some v -> In (k, v) m.
Proof.
  induction m as [|[k' v'] m IH]; cbn; [discriminate |].
  destruct (String.eqb_spec k k') as [->|_]; [intro H; injection H as ->; left; reflexivity |].
  intro H. right. exact (IH H).
Qed.

Lemma composites_keys (c : collected) : composites_ok c ->
  forall k v, assoc k (compositeIds c) = Some v <->
              v = true /\ In (JStr k) (map ne_nodeId (compositeNodes c)).
Proof.
  intros [Hi [_ Hf]] k v. rewrite Hi. split.
  - intro H. apply assoc_some_in, in_map_iff in H. destruct H as [e [He Hin]].
    injection He as Hk Hv. split; [congruence |].
    apply in_map_iff. exists e. split; [| exact Hin].
    rewrite Forall_forall in Hf. rewrite (Hf e Hin). congruence.
  - intros [-> Hin]. apply in_map_iff in Hin. destruct Hin as [e [He Hin]].
    assert (Hm : In (k, true) (map (fun e => (as_str (ne_nodeId e), true)) (compositeNodes c)))
      by (apply in_map_iff; exists e; split; [rewrite He; reflexivity | exact Hin]).
    destruct (assoc_in _ _ _ Hm) as [v' Hv'].
    rewrite Hv'. apply assoc_some_in, in_map_iff in Hv'. destruct Hv' as [e' [He' _]].
    injection He' as _ <-. reflexivity.
Qed.

(** X13. In a walk started from the empty accumulator, no node id is
    recorded twice among the composite nodes, and the own keys of
    [compositeIds] are exactly their ids, each with the value [true]. *)
Theorem collectImageAssets_composites_distinct : forall n depth,
  let c := fst (collectImageAssets n depth empty_collected) in
  NoDup (map ne_nodeId (compositeNodes c)) /\
  forall k v, assoc k (compositeIds c) = Some v <->
              v = true /\ In (JStr k) (map ne_nodeId (compositeNodes c)).
Proof.
  intros n depth. cbn zeta.
  pose proof (collectImageAssets_R (keeps composites_ok) (keeps_refl _) (keeps_trans _)
                composites_fill composites_vector composites_composite n depth empty_collected)
    as H.
  assert (Hok : composites_ok (fst (collectImageAssets n depth empty_collected)))
    by (apply H; split; [reflexivity | split; constructor]).
  split; [exact (proj1 (proj2 Hok)) | exact (composites_keys _ Hok)].
Qed.

(** ** The image peek [subtreeHasImage] *)

(** Some live node at most [k] levels below [n] has a fill that passes the
    [IMAGE] test. *)
Fixpoint image_within (n : fnode) (k : nat) {struct n} : bool :=
  match n with
  | FRemoved => false
  | FNode props kids =>
    existsb is_image_fill (list_of (safeArr (safe (prop props "fills") JUndefined))) ||
    match kids with
    | Some ks => match k with S k' => existsb (fun c => image_within c k') ks | 0 => false end
    | None => false
    end
  end.

(** X14. When [subtreeHasImage(node, d)] returns (does not throw), it
    answers whether a node at most [4 - d] levels below [node], [node]
    included, has an [IMAGE] fill with a truthy [imageHash]; from a level
    [d > 4] it answers false without looking. *)
Theorem subtreeHasImage_spec : forall n d b,
  subtreeHasImage n d = Some b -> b = (d <=? 4) && image_within n (4 - d).
Proof.
  intro n. induction n as [props kids IHk|] using fnode_ind'; intros d b.
  - cbn [subtreeHasImage].
    destruct (Nat.ltb_spec 4 d) as [Hd|Hd].
    + intro H. injection H as <-. destruct (Nat.leb_spec d 4); [lia | reflexivity].
    + replace (d <=? 4) with true by (symmetry; apply Nat.leb_le; exact Hd).
      cbn [andb image_within].
      destruct (existsb is_image_fill _) eqn:Ef; [intro H; injection H as <-; reflexivity |].
      cbn [orb].
      destruct kids as [ks|]; [| intro H; injection H as <-; reflexivity].
      revert b. induction IHk as [|c ks Hc _ IH]; intro b.
      * intro H. injection H as <-. destruct (4 - d); reflexivity.
      * cbn -[subtreeHasImage image_within Nat.sub].
        destruct (subtreeHasImage c (S d)) as [[|]|] eqn:Ec; [| | discriminate].
        -- intro H. injection H as <-. apply Hc in Ec.
           destruct (Nat.leb_spec (S d) 4) as [Hl|Hl]; [| discriminate].
           replace (4 - d) with (S (4 - S d)) by lia. cbn [andb] in Ec.
           cbn [existsb]. rewrite <- Ec. reflexivity.
        -- intro H. apply Hc in Ec. rewrite (IH b H).
           destruct (4 - d) as [|k] eqn:Ek; [reflexivity |].
           cbn [existsb]. replace (image_within c k) with false; [reflexivity |].
           destruct (Nat.leb_spec (S d) 4) as [Hl|Hl]; [| lia].
           replace k with (4 - S d) by lia. exact Ec.
  - cbn [subtreeHasImage]. destruct (Nat.ltb_spec 4 d) as [Hd|Hd]; intro H; [| discriminate H].
    injection H as <-. cbn [image_within]. rewrite andb_false_r. reflexivity.
Qed.

Definition framed_photo : fnode :=
  FNode [("type", JStr "FRAME")]
    (Some [FNode [("type", JStr "GROUP")]
             (Some [FNode [("fills", JArr [image_fill "h9"])] None])]).

Lemma subtreeHasImage_spec_witness :
  subtreeHasImage framed_photo 0 = Some true /\
  true = (0 <=? 4) && image_within framed_photo (4 - 0).
Proof.
  split; [reflexivity |]. apply subtreeHasImage_spec. reflexivity.
Defined.

(** ** Composite export size *)

Open Scope Q_scope.

Lemma js_max_bounds (a b : Q) :
  a <= js_max a b /\ b <= js_max a b /\ (js_max a b == a \/ js_max a b == b).
Proof.
  unfold js_max. destruct (Qle_bool a b) eqn:E.
  - apply Qle_bool_iff in E. split; [exact E | split; [apply Qle_refl | right; reflexivity]].
  - split; [apply Qle_refl | split; [| left; reflexivity]].
    apply Qlt_le_weak, Qnot_le_lt. intro H. apply Qle_bool_iff in H. congruence.
Qed.

Lemma js_round_le_512 (x : Q) : x <= 512 -> (js_round x <= 512)%Z.
Proof.
  intro H. unfold js_round.
  change 512%Z with (Qfloor (512 + (1 # 2))).
  apply Qfloor_resp_le. apply Qplus_le_compat; [exact H | apply Qle_refl].
Qed.

Lemma js_round_512 (x : Q) : x == 512 -> js_round x = 512%Z.
Proof.
  intro H. unfold js_round. rewrite H. reflexivity.
Qed.

(** X15. The width and height recorded for a composite never exceed
    [COMPOSITE_MAX_PX] (512), and when the larger normalized side exceeds
    it, that side is recorded as exactly 512. *)
Theorem composite_export_fits : forall props : list (string * jsval),
  let w := as_num (safeNum (prop props "width") (JNum 1)) in
  let h := as_num (safeNum (prop props "height") (JNum 1)) in
  let e := composite_export props in
  (ce_width e <= 512)%Z /\ (ce_height e <= 512)%Z /\
  (COMPOSITE_MAX_PX < js_max w h -> Z.max (ce_width e) (ce_height e) = 512%Z).
Proof.
  intros props w h e. unfold e, composite_export. fold w h.
  cbn [ce_scale ce_width ce_height].
  destruct (js_max_bounds w h) as [Hw [Hh Hm]].
  set (M := js_max w h) in *.
  destruct (Qltb COMPOSITE_MAX_PX M) eqn:E.
  - apply Qltb_true in E. unfold COMPOSITE_MAX_PX in *.
    assert (HM : ~ M == 0).
    { intro H0. rewrite H0 in E. discriminate E. }
    assert (Hs : 0 <= 512 / M).
    { unfold Qdiv. apply Qmult_le_0_compat; [discriminate |].
      apply Qinv_le_0_compat. apply Qlt_le_weak. apply Qlt_trans with 512; [reflexivity | exact E]. }
    assert (Hfit : forall x, x <= M -> x * (512 / M) <= 512).
    { intros x Hx. apply Qle_trans with (M * (512 / M)).
      - apply Qmult_le_compat_r; assumption.
      - rewrite Qmult_div_r by exact HM. apply Qle_refl. }
    assert (W := js_round_le_512 _ (Hfit w Hw)).
    assert (H := js_round_le_512 _ (Hfit h Hh)).
    split; [exact W | split; [exact H |]]. intros _.
    destruct Hm as [Hm|Hm].
    + rewrite (js_round_512 (w * (512 / M))); [lia |].
      rewrite <- Hm. apply Qmult_div_r. exact HM.
    + rewrite (js_round_512 (h * (512 / M))); [lia |].
      rewrite <- Hm. apply Qmult_div_r. exact HM.
  - assert (HM : M <= COMPOSITE_MAX_PX).
    { apply Qnot_lt_le. intro H. apply Qltb_true in H. congruence. }
    unfold COMPOSITE_MAX_PX in HM.
    split; [| split].
    + apply js_round_le_512. rewrite Qmult_1_r. apply Qle_trans with M; assumption.
    + apply js_round_le_512. rewrite Qmult_1_r. apply Qle_trans with M; assumption.
    + intro H. apply Qltb_true in H. congruence.
Qed.

Lemma composite_export_fits_witness :
  Z.max (ce_width (composite_export [("width", JNum (1999 # 3)); ("height", JNum 700)]))
        (ce_height (composite_export [("width", JNum (1999 # 3)); ("height", JNum 700)]))
  = 512%Z.
Proof.
  apply (proj2 (proj2 (composite_export_fits [("width", JNum (1999 # 3)); ("height", JNum 700)]))).
  reflexivity.
Defined.

Open Scope nat_scope.

(** ** Plugin selection sequencing *)

Open Scope list_scope.

(** The node id of the latest [selection-changed] message of [l]. *)
Definition last_changed (l : list ui_message) : option string :=
  fold_left (fun acc m => match m with SelectionChanged id => Some id | _ => acc end) l None.

Lemma last_changed_snoc (l : list ui_message) (m : ui_message) :
  last_changed (l ++ [m]) =
  match m with SelectionChanged id => Some id | _ => last_changed l end.
Proof. unfold last_changed. rewrite fold_left_app. reflexivity. Qed.

(** Every [images-extracted] message names the node of the latest
    [selection-changed] message posted before it. *)
Definition images_follow_selection (l : list ui_message) : Prop :=
  forall pre id post, l = pre ++ ImagesExtracted id :: post -> last_changed pre = Some id.

Lemma images_follow_snoc (l : list ui_message) (m : ui_message) :
  images_follow_selection l ->
  (forall id, m = ImagesExtracted id -> last_changed l = Some id) ->
  images_follow_selection (l ++ [m]).
Proof.
  intros Hl Hm pre id post E.
  destruct post as [|m' post] using rev_ind.
  - apply app_inj_tail in E. destruct E as [<- E]. apply Hm. exact E.
  - rewrite app_comm_cons, app_assoc in E. apply app_inj_tail in E. destruct E as [E _].
    exact (Hl pre id post E).
Qed.

Definition plugin_ok (st : plugin) : Prop :=
  (forall k id, In (k, id) (pending st) -> k <= selectionSeq st) /\
  (forall k id, In (k, id) (pending st) -> k = selectionSeq st ->
     last_changed (posted st) = Some id) /\
  images_follow_selection (posted st).

Lemma plugin_step_ok (st : plugin) (ev : plugin_event) :
  plugin_ok st -> plugin_ok (plugin_step st ev).
Proof.
  intros [Hle [Hcur Himg]]. destruct ev as [force sel|k n]; cbn [plugin_step].
  - unfold sendCurrentSelection.
    destruct sel as [|node [|node2 sel]].
    + split; [exact Hle | split; cbn [pending selectionSeq posted]].
      * intros k id Hin Hk. rewrite last_changed_snoc. exact (Hcur k id Hin Hk).
      * apply images_follow_snoc; [exact Himg | discriminate].
    + destruct (negb force && _); [split; [exact Hle | split; [exact Hcur | exact Himg]] |].
      split; [| split]; cbn [pending selectionSeq posted].
      * intros k id Hin. destruct (Nat.ltb 0 _); [apply in_app_or in Hin |].
        -- destruct Hin as [Hin|[E|[]]]; [specialize (Hle k id Hin); lia | injection E as <- _; lia].
        -- specialize (Hle k id Hin). lia.
      * intros k id Hin Hk. rewrite last_changed_snoc.
        destruct (Nat.ltb 0 _); [apply in_app_or in Hin |].
        -- destruct Hin as [Hin|[E|[]]]; [specialize (Hle k id Hin); lia | injection E as _ <-; reflexivity].
        -- specialize (Hle k id Hin). lia.
      * apply images_follow_snoc; [exact Himg | discriminate].
    + split; [exact Hle | split; cbn [pending selectionSeq posted]].
      * intros k id Hin Hk. rewrite last_changed_snoc. exact (Hcur k id Hin Hk).
      * apply images_follow_snoc; [exact Himg | discriminate].
  - unfold export_done.
    destruct (find (fun p => Nat.eqb (fst p) k) (pending st)) as [[k' cid]|] eqn:F;
      [| split; [exact Hle | split; [exact Hcur | exact Himg]]].
    apply find_some in F. destruct F as [Fin Fk]. cbn in Fk. apply Nat.eqb_eq in Fk. subst k'.
    assert (Hsub : forall p, In p (filter (fun p => negb (Nat.eqb (fst p) k)) (pending st)) ->
                             In p (pending st))
      by (intros p Hp; apply filter_In in Hp; exact (proj1 Hp)).
    split; [| split]; cbn [pending selectionSeq posted].
    + intros k' id Hin. exact (Hle k' id (Hsub _ Hin)).
    + intros k' id Hin Hk. destruct (Nat.ltb 0 n && Nat.eqb k (selectionSeq st)) eqn:E.
      * apply filter_In in Hin. destruct Hin as [_ Hne]. cbn in Hne.
        apply andb_true_iff in E. destruct E as [_ E]. apply Nat.eqb_eq in E.
        subst. rewrite Nat.eqb_refl in Hne. discriminate.
      * exact (Hcur k' id (Hsub _ Hin) Hk).
    + destruct (Nat.ltb 0 n && Nat.eqb k (selectionSeq st)) eqn:E; [| exact Himg].
      apply images_follow_snoc; [exact Himg |]. intros id E'. injection E' as <-.
      apply andb_true_iff in E. destruct E as [_ E]. apply Nat.eqb_eq in E.
      exact (Hcur k cid Fin E).
Qed.

(** X16. In every run of the plugin, whatever selection changes, refreshes
    and export resolutions occur and in whatever order the exports
    resolve, each [images-extracted] message posted carries the node id
    of the latest [selection-changed] message posted before it: a stale
    export is never delivered once another node has been sent. *)
Theorem plugin_images_follow_selection : forall evs : list plugin_event,
  images_follow_selection (posted (fold_left plugin_step evs plugin_init)).
Proof.
  intro evs.
  cut (forall st, plugin_ok st -> plugin_ok (fold_left plugin_step evs st)).
  - intro H. apply H. split; [intros k id [] | split; [intros k id [] |]].
    intros pre id post E. destruct pre; discriminate E.
  - induction evs as [|ev evs IH]; intros st Hst; [exact Hst |].
    apply IH. apply plugin_step_ok. exact Hst.
Qed.

(** X17. An export still in flight for the latest node sent is delivered
    after the selection is cleared or becomes a multi-selection: neither
    case advances [selectionSeq], so the UI receives [selection-cleared]
    (or [multi-selection]) followed by that node's [images-extracted]. *)
Theorem plugin_images_after_clear : forall st k id n force sel,
  find (fun p => Nat.eqb (fst p) k) (pending st) = Some (k, id) ->
  k = selectionSeq st -> 0 < n -> (sel = [] \/ 2 <= List.length sel) ->
  exists m,
    posted (export_done k n (sendCurrentSelection force sel st)) =
      posted st ++ [m; ImagesExtracted id] /\
    (m = SelectionCleared \/ exists cnt ns, m = MultiSelection cnt ns).
Proof.
  intros st k id n force sel F Hk Hn Hsel.
  assert (Hn' : Nat.ltb 0 n = true) by (apply Nat.ltb_lt; exact Hn).
  destruct sel as [|node [|node2 sel]].
  - exists SelectionCleared. split; [| left; reflexivity].
    unfold export_done. cbn [sendCurrentSelection pending selectionSeq posted].
    rewrite F, Hn', Hk, Nat.eqb_refl. cbn. rewrite <- app_assoc. reflexivity.
  - destruct Hsel as [H|H]; [discriminate H | cbn in H; lia].
  - eexists. split; [| right; do 2 eexists; reflexivity].
    unfold export_done. cbn [sendCurrentSelection pending selectionSeq posted].
    rewrite F, Hn', Hk, Nat.eqb_refl. cbn. rewrite <- app_assoc. reflexivity.
Qed.

Definition photo_node : fnode :=
  FNode [("id", JStr "2:7"); ("type", JStr "RECTANGLE"); ("fills", JArr [image_fill "h9"])] None.

Lemma plugin_images_after_clear_witness :
  exists m,
    posted (export_done 1 3 (sendCurrentSelection false []
              (sendCurrentSelection false [photo_node] plugin_init))) =
      posted (sendCurrentSelection false [photo_node] plugin_init) ++
        [m; ImagesExtracted "2:7"] /\
    (m = SelectionCleared \/ exists cnt ns, m = MultiSelection cnt ns).
Proof.
  apply plugin_images_after_clear.
  - vm_compute. reflexivity.
  - vm_compute. reflexivity.
  - lia.
  - left. reflexivity.
Defined.

(** ** Paints *)

Open Scope Q_scope.

(** [v] when it is a number, [d] otherwise. *)
Definition num_or (v : jsval) (d : Q) : Q :=
  match v with JNum q => q | _ => d end.

Lemma safeNum_num_or (v : jsval) (d : Q) : safeNum v (JNum d) = JNum (num_or v d).
Proof. destruct v; reflexivity. Qed.

(** X18. [toColor(c)] is, for every value [c] ([figma.mixed], null, a
    primitive or an object), the object whose channels [r], [g], [b] are
    [c]'s own numeric channels or 0 and whose [a] is [c.a] when it is a
    number or 1: every channel is a number. *)
Theorem toColor_channels : forall c : jsval,
  toColor c = JObj [("r", JNum (num_or (jget c "r") 0)); ("g", JNum (num_or (jget c "g") 0));
                    ("b", JNum (num_or (jget c "b") 0)); ("a", JNum (num_or (jget c "a") 1))].
Proof.
  intro c. unfold toColor. rewrite !safeNum_num_or.
  destruct (negb (truthy c) || is_symbol c) eqn:E; [| reflexivity].
  destruct c; try reflexivity.
  cbn in E. discriminate E.
Qed.

Lemma map_throw_none (f : jsval -> option jsval) (xs : list jsval) :
  map_throw f xs = None <-> exists x, In x xs /\ f x = None.
Proof.
  induction xs as [|x xs IH]; cbn.
  - split; [discriminate | intros [x [[] _]]].
  - destruct (f x) as [y|] eqn:Fx.
    + destruct (map_throw f xs) as [ys|] eqn:M.
      * split; [discriminate |]. intros [z [[<-|Hz] Hn]]; [congruence |].
        assert (H : Some ys = None) by (apply IH; exists z; auto). discriminate H.
      * split; [intros _ | reflexivity]. destruct (proj1 IH eq_refl) as [z [Hz Hn]].
        exists z. auto.
    + split; [intros _; exists x; auto | reflexivity].
Qed.

Lemma gradient_not_solid (t : jsval) :
  is_gradient t = true -> strict_eq t (JStr "SOLID") = false.
Proof.
  destruct t as [| | | |s| | |]; try discriminate. unfold is_gradient. cbn.
  intro H. repeat (apply orb_true_iff in H; destruct H as [H|H]);
    apply String.eqb_eq in H; subst s; reflexivity.
Qed.

(** X19. [extractPaint(p)] throws exactly when [p] is a gradient paint
    (truthy, not a symbol, of one of the four gradient types) with a null
    or undefined entry among its [gradientStops]; it never throws on a
    solid, image or other paint, nor on null, undefined or [figma.mixed]. *)
Theorem extractPaint_throws_iff : forall p : jsval,
  extractPaint p = None <->
  truthy p = true /\ is_symbol p = false /\ is_gradient (jget p "type") = true /\
  exists s, In s (list_of (safeArr (jget p "gradientStops"))) /\
            (is_null s || is_undefined s) = true.
Proof.
  intro p. unfold extractPaint.
  destruct (negb (truthy p) || is_symbol p) eqn:E.
  - split; [discriminate |]. intros [Ht [Hs _]]. rewrite Ht, Hs in E. discriminate E.
  - apply orb_false_iff in E. destruct E as [Ht Hs]. apply negb_false_iff in Ht.
    destruct (is_gradient (jget p "type")) eqn:G.
    + rewrite (gradient_not_solid _ G).
      destruct (map_throw extract_stop _) as [stops|] eqn:M.
      * split; [discriminate |]. intros [_ [_ [_ [s [Hin Hn]]]]].
        assert (H : map_throw extract_stop (list_of (safeArr (jget p "gradientStops"))) = None)
          by (apply map_throw_none; exists s; split; [exact Hin |];
              unfold extract_stop; rewrite Hn; reflexivity).
        congruence.
      * split; [intros _ | reflexivity]. split; [exact Ht | split; [exact Hs | split; [reflexivity |]]].
        destruct (proj1 (map_throw_none _ _) M) as [s [Hin Hn]]. exists s. split; [exact Hin |].
        unfold extract_stop in Hn. destruct (is_null s || is_undefined s); [reflexivity | discriminate].
    + split; [| intros [_ [_ [H _]]]; discriminate H].
      destruct (strict_eq _ (JStr "SOLID")); [discriminate |].
      destruct (strict_eq _ (JStr "IMAGE")); discriminate.
Qed.

Lemma extractPaint_throws_iff_witness :
  extractPaint (JObj [("type", JStr "GRADIENT_LINEAR"); ("gradientStops", JArr [JNull])]) = None.
Proof.
  apply extractPaint_throws_iff. split; [reflexivity | split; [reflexivity | split; [reflexivity |]]].
  exists JNull. split; [left; reflexivity | reflexivity].
Defined.

(** X20. For an [IMAGE] fill whose [imageHash] is a string [h] that is not
    a name of [Object.prototype], the design tree's paint carries
    [imageRef: h], and the collector's fills check leaves [h] recorded in
    [imageHashes] (the id the exported asset then gets), whether it was
    recorded before or not. *)
Theorem image_paint_ref_matches_collector : forall p props c h,
  strict_eq (jget p "type") (JStr "IMAGE") = true -> jget p "imageHash" = JStr h ->
  h <> ""%string -> ~ In h proto_keys ->
  (exists fs, extractPaint p = Some (JObj fs) /\ assoc "imageRef" fs = Some (JStr h)) /\
  (exists info, assoc h (imageHashes (collect_fill props c p)) = Some info).
Proof.
  intros p props c h Hty Hh Hne Hp.
  assert (Hobj : exists fs, p = JObj fs)
    by (destruct p; try discriminate Hty; eexists; reflexivity).
  destruct Hobj as [fs ->].
  assert (Htr : truthy (jget (JObj fs) "imageHash") = true)
    by (rewrite Hh; destruct h; [congruence | reflexivity]).
  split.
  - unfold extractPaint. cbn [truthy is_symbol negb orb].
    assert (G : is_gradient (jget (JObj fs) "type") = false).
    { destruct (jget (JObj fs) "type") as [| | | |s| | |]; try discriminate Hty.
      cbn in Hty. apply String.eqb_eq in Hty. subst s. reflexivity. }
    assert (S : strict_eq (jget (JObj fs) "type") (JStr "SOLID") = false).
    { destruct (jget (JObj fs) "type") as [| | | |s| | |]; try discriminate Hty.
      cbn in Hty. apply String.eqb_eq in Hty. subst s. reflexivity. }
    rewrite S, G, Hty. eexists. split; [reflexivity |].
    rewrite Hh. reflexivity.
  - unfold collect_fill, is_image_fill. cbn [truthy].
    rewrite Hty, Htr. cbn [andb]. rewrite Hh. cbn [safeStr safe is_null is_undefined orb typeof
      String.eqb negb as_str].
    replace (safeStr (JStr h) (JStr "")) with (JStr h) by reflexivity. cbn [as_str].
    assert (Hth : truthy (JStr h) = true) by (destruct h; [congruence | reflexivity]).
    rewrite Hth. cbn [andb].
    destruct (obj_has (imageHashes c) h) eqn:E; cbn [negb].
    + unfold obj_has in E. apply orb_true_iff in E. destruct E as [E|E].
      * exfalso. apply Hp. apply existsb_exists in E. destruct E as [x [Hx Ex]].
        apply String.eqb_eq in Ex. subst x. exact Hx.
      * destruct (assoc h (imageHashes c)) as [info|]; [exists info; reflexivity | discriminate].
    + cbn [imageHashes]. rewrite assoc_obj_set, String.eqb_refl. eexists. reflexivity.
Qed.

Lemma image_paint_ref_matches_collector_witness :
  exists info, assoc "h9" (imageHashes (collect_fill [] empty_collected (image_fill "h9")))
               = Some info.
Proof.
  apply (proj2 (image_paint_ref_matches_collector (image_fill "h9") [] empty_collected "h9"
                  eq_refl eq_refl ltac:(discriminate) ltac:(cbn; intuition discriminate))).
Defined.

Open Scope nat_scope.

(** X21. A multi-selection does not reset [lastNodeId]: when the single
    node last sent is selected again right after a multi-selection, the
    debounced [sendCurrentSelection(false)] posts nothing and starts no
    export, so the UI's last message stays [multi-selection]. *)
Theorem plugin_reselect_after_multi_silent : forall st node sel,
  lastNodeId st = Some (node_id node) -> 2 <= List.length sel ->
  sendCurrentSelection false [node] (sendCurrentSelection false sel st) =
  sendCurrentSelection false sel st.
Proof.
  intros st node sel Hl Hs.
  destruct sel as [|n1 [|n2 sel]]; [cbn in Hs; lia | cbn in Hs; lia |].
  cbn [sendCurrentSelection lastNodeId]. rewrite Hl, String.eqb_refl. reflexivity.
Qed.

Lemma plugin_reselect_after_multi_silent_witness :
  let st1 := sendCurrentSelection false [photo_node] plugin_init in
  sendCurrentSelection false [photo_node] (sendCurrentSelection false [photo_node; photo_node] st1) =
  sendCurrentSelection false [photo_node; photo_node] st1.
Proof.
  apply plugin_reselect_after_multi_silent; [reflexivity | cbn; lia].
Defined.

(** X22. Clearing the selection re-arms it: after [selection-cleared], a
    debounced [sendCurrentSelection(false)] on any single node, the one
    sent before included, posts [selection-changed] for it and advances
    [selectionSeq], which makes every export still in flight stale. *)
Theorem plugin_clear_rearms : forall st node,
  let st' := sendCurrentSelection false [node] (sendCurrentSelection false [] st) in
  posted st' = posted st ++ [SelectionCleared; SelectionChanged (node_id node)] /\
  lastNodeId st' = Some (node_id node) /\ selectionSeq st' = S (selectionSeq st).
Proof.
  intros st node. cbn. rewrite <- app_assoc. split; [reflexivity | split; reflexivity].
Qed.
